(** * Huron BigTIFF support (openslide-vendor-huron.c)

    A shallow embedding of the Huron vendor driver of OpenSlide: format
    detection, the directory scan of [huron_open] with its level sort and
    its exit paths, the resolution property, and the tile reader
    [read_tile].  C statements become steps of a small state monad whose
    second outcome models the jumps of the source ([return], [continue],
    [goto FAIL]). *)

From Stdlib Require Import ZArith Floats Lia.
From stdpp Require Import gmap strings list fin_maps sorting.

Local Open Scope Z_scope.

(** ** Errors *)

(** The error codes of the OPENSLIDE_ERROR domain that this file tests. *)
Inductive OpenslideError : Type :=
| OPENSLIDE_ERROR_FAILED
| OPENSLIDE_ERROR_NO_VALUE.

(** A [GError]: the code, the printf format and the arguments given to
    [g_set_error] (kept unformatted). *)
Record GError : Type := mkGError {
  code : OpenslideError;
  message : string;
  message_args : list Z;
}.

Definition g_error_matches (e : GError) (c : OpenslideError) : bool :=
  match code e, c with
  | OPENSLIDE_ERROR_FAILED, OPENSLIDE_ERROR_FAILED => true
  | OPENSLIDE_ERROR_NO_VALUE, OPENSLIDE_ERROR_NO_VALUE => true
  | _, _ => false
  end.

(** The outcome of a routine that reports through a [GError **]. *)
Inductive result (A : Type) : Type :=
| Ok (a : A)
| Error (e : GError).
Arguments Ok {A} a.
Arguments Error {A} e.

(** ** TIFF directories *)

Definition TIFFTAG_SUBFILETYPE : Z := 254.
Definition TIFFTAG_IMAGEWIDTH : Z := 256.
Definition TIFFTAG_IMAGELENGTH : Z := 257.
Definition TIFFTAG_COMPRESSION : Z := 259.
Definition TIFFTAG_IMAGEDESCRIPTION : Z := 270.
Definition TIFFTAG_MAKE : Z := 271.
Definition TIFFTAG_MODEL : Z := 272.
Definition TIFFTAG_ROWSPERSTRIP : Z := 278.
Definition TIFFTAG_XRESOLUTION : Z := 282.
Definition TIFFTAG_RESOLUTIONUNIT : Z := 296.
Definition RESUNIT_INCH : Z := 2.
Definition RESUNIT_CENTIMETER : Z := 3.

(** One directory as libtiff shows it: the answer of [TIFFIsTiled] and the
    tags that are set, keyed by their numeric id. *)
Record directory : Type := mkDirectory {
  TIFFIsTiled : bool;
  uint_tags : gmap Z Z;
  ascii_tags : gmap Z string;
}.

(** [TIFFGetField] into a [uint32_t], a [uint16_t] and a [char *]:
    [None] is the zero return of libtiff (tag not set). *)
Definition TIFFGetField_uint32 (tiff : directory) (tag : Z) : option Z :=
  (fun v => v mod 2 ^ 32) <$> uint_tags tiff !! tag.

Definition TIFFGetField_uint16 (tiff : directory) (tag : Z) : option Z :=
  (fun v => v mod 2 ^ 16) <$> uint_tags tiff !! tag.

Definition TIFFGetField_ascii (tiff : directory) (tag : Z) : option string :=
  ascii_tags tiff !! tag.

(** An open TIFF handle: the current directory and the directories that
    successive calls of [TIFFReadDirectory] reach. *)
Definition TIFF : Type := (directory * list directory)%type.

(** The parsed tag tables of openslide-decode-tifflike, through the
    accessors this file calls (directory number, then tag). *)
Record _openslide_tifflike : Type := mkTifflike {
  tl_is_tiled : Z -> bool;
  tl_buffer : Z -> Z -> result string;
  tl_uint : Z -> Z -> result Z;
  tl_float : Z -> Z -> result float;
}.

Definition _openslide_tifflike_is_tiled (tl : _openslide_tifflike) (d : Z) : bool :=
  tl_is_tiled tl d.

(** The value comes back in a [uint64_t]. *)
Definition _openslide_tifflike_get_uint (tl : _openslide_tifflike) (d tag : Z) : result Z :=
  match tl_uint tl d tag with
  | Ok v => Ok (v mod 2 ^ 64)
  | Error e => Error e
  end.

(** The value comes back in a [double]. *)
Definition _openslide_tifflike_get_float (tl : _openslide_tifflike) (d tag : Z) : result float :=
  tl_float tl d tag.

(** ** GLib string helpers *)

(** GLib's [g_ascii_isspace] looks the byte up in its table of character
    classes, which marks as space the tab (9), the newline (10), the form
    feed (12), the carriage return (13) and the blank (32).  Unlike C's
    [isspace] it does not take the vertical tab (11). *)
Definition g_ascii_isspace (c : Ascii.ascii) : bool :=
  let n := Ascii.N_of_ascii c in
  ((n =? 9) || (n =? 10) || (n =? 12) || (n =? 13) || (n =? 32))%N.

Fixpoint g_strchug (s : string) : string :=
  match s with
  | EmptyString => EmptyString
  | String c s' => if g_ascii_isspace c then g_strchug s' else s
  end.

Fixpoint g_strchomp (s : string) : string :=
  match s with
  | EmptyString => EmptyString
  | String c s' =>
      match g_strchomp s' with
      | EmptyString => if g_ascii_isspace c then EmptyString else String c EmptyString
      | t => String c t
      end
  end.

Definition g_strstrip (s : string) : string := g_strchomp (g_strchug s).

Definition g_str_has_prefix (str prefix : string) : bool := String.prefix prefix str.

Definition HURON_MAKER : string := "Huron".
Definition HURON_MODEL : string := "LE".
Definition MACRO_DESCRIPTION : string := "macro".
Definition LABEL_DESCRIPTION : string := "label".

(** ** Levels and the image object *)

(** The fields of [struct _openslide_tiff_level] this file reads. *)
Record _openslide_tiff_level : Type := mkTiffLevel {
  dir : Z;
  image_w : Z;
  image_h : Z;
  tile_w : Z;
  tile_h : Z;
  tiles_across : Z;
  tiles_down : Z;
}.

(** A [struct level]: the address of its slice block stands for the
    pointer, [grid] for the [struct _openslide_grid *]. *)
Record level : Type := mkLevel {
  level_addr : Z;
  tiffl : _openslide_tiff_level;
  grid : Z;
}.

(** A grid made by [_openslide_grid_create_simple], with the geometry it
    was given; its tile callback is always [read_tile]. *)
Record simple_grid : Type := mkGrid {
  grid_addr : Z;
  grid_tiles_across : Z;
  grid_tiles_down : Z;
  grid_tile_w : Z;
  grid_tile_h : Z;
}.

Definition pixels : Type := list Z.

(** A tile cache entry: the buffer it owns, the buffer's contents and size,
    and the number of references handed out. *)
Record cache_entry : Type := mkEntry {
  entry_data : Z;
  entry_pixels : pixels;
  entry_size : Z;
  entry_refs : Z;
}.

(** [struct huron_ops_data]: its own block and whether [tc] is stored. *)
Record huron_ops_data : Type := mkData {
  data_addr : Z;
  data_tc : bool;
}.

(** [openslide_t]: the fields this file reads or writes; [ops] is set when
    it points to [huron_ops]. *)
Record openslide_t : Type := mkOsr {
  ops : bool;
  levels : option (list level);
  level_count : Z;
  data : option huron_ops_data;
  properties : gmap string string;
  associated_images : gmap string Z;
  cache : gmap (Z * Z * Z) cache_entry;
}.

Definition set_properties (p : gmap string string) (o : openslide_t) : openslide_t :=
  mkOsr (ops o) (levels o) (level_count o) (data o) p (associated_images o) (cache o).
Definition set_associated_images (a : gmap string Z) (o : openslide_t) : openslide_t :=
  mkOsr (ops o) (levels o) (level_count o) (data o) (properties o) a (cache o).
Definition set_cache (c : gmap (Z * Z * Z) cache_entry) (o : openslide_t) : openslide_t :=
  mkOsr (ops o) (levels o) (level_count o) (data o) (properties o) (associated_images o) c.
Definition set_data (d : option huron_ops_data) (o : openslide_t) : openslide_t :=
  mkOsr (ops o) (levels o) (level_count o) d (properties o) (associated_images o) (cache o).

(** What a slice block was allocated for. *)
Inductive block : Type :=
| Block_level
| Block_huron_ops_data
| Block_tile (size : Z).

(** The state of the tiffcache [tc]: absent, live (with or without a
    handle checked out) or destroyed. *)
Inductive tiffcache : Type :=
| TC_none
| TC_live (handle_out : bool)
| TC_destroyed.

(** Calls that leave this file and are observable from outside. *)
Inductive event : Type :=
| Ev_stderr (format : string) (arg : Z)
| Ev_tifflike_get_buffer (d tag : Z)
| Ev_init_properties_and_hash (lowest_resolution_level property_dir : Z)
| Ev_slice_alloc (addr : Z) (b : block)
| Ev_slice_free (addr : Z) (b : block)
| Ev_paint (tiledata : pixels) (w h stride : Z).

(** The machine state the functions of this file act on: the caller's
    [err], the image object, the [GPtrArray] of [huron_open] (absent when
    NULL), the live slice blocks and grids, the tiffcache and the log. *)
Record world : Type := mkWorld {
  err : option GError;
  osr : openslide_t;
  level_array : option (list level);
  slices : list (Z * block);
  grids : list simple_grid;
  tc : tiffcache;
  log : list event;
}.

Definition set_err (e : option GError) (w : world) : world :=
  mkWorld e (osr w) (level_array w) (slices w) (grids w) (tc w) (log w).
Definition set_osr (o : openslide_t) (w : world) : world :=
  mkWorld (err w) o (level_array w) (slices w) (grids w) (tc w) (log w).
Definition set_level_array (a : option (list level)) (w : world) : world :=
  mkWorld (err w) (osr w) a (slices w) (grids w) (tc w) (log w).
Definition set_slices (s : list (Z * block)) (w : world) : world :=
  mkWorld (err w) (osr w) (level_array w) s (grids w) (tc w) (log w).
Definition set_grids (g : list simple_grid) (w : world) : world :=
  mkWorld (err w) (osr w) (level_array w) (slices w) g (tc w) (log w).
Definition set_tc (t : tiffcache) (w : world) : world :=
  mkWorld (err w) (osr w) (level_array w) (slices w) (grids w) t (log w).
Definition add_log (e : event) (w : world) : world :=
  mkWorld (err w) (osr w) (level_array w) (slices w) (grids w) (tc w) (log w ++ [e]).

(** ** The routines of the host *)

(** What this file calls and does not define: the TIFF handle cache,
    libtiff's codec table, the level geometry helper, the associated-image
    registrar, the property and hash extractor (from the properties it
    finds, the lowest-resolution directory and the property directory, to
    the properties it leaves; the hash accumulator [quickhash1] is its
    own business), the number formatter, GLib's array sort, and the tile
    decode and clip primitives. *)
Record host : Type := mkHost {
  tiffcache_open : string -> result TIFF;
  TIFFIsCODECConfigured : Z -> bool;
  _openslide_tiff_level_init : directory -> Z -> result _openslide_tiff_level;
  add_associated_image_check : string -> Z -> directory -> result unit;
  init_properties_and_hash :
    _openslide_tifflike -> gmap string string -> Z -> Z -> result (gmap string string);
  _openslide_format_double : float -> string;
  g_ptr_array_sort : (level -> level -> Z) -> list level -> list level;
  _openslide_tiff_read_tile : _openslide_tiff_level -> Z -> Z -> result pixels;
  _openslide_tiff_clip_tile : _openslide_tiff_level -> pixels -> Z -> Z -> result pixels;
}.

(** A comparison function in the sense of [qsort]: total and transitive. *)
Definition comparator {A} (cmp : A -> A -> Z) : Prop :=
  (forall a b, cmp a b <= 0 \/ cmp b a <= 0) /\
  (forall a b c, cmp a b <= 0 -> cmp b c <= 0 -> cmp a c <= 0).

(** What GLib promises of [g_ptr_array_sort]: the elements are kept and
    come out in the order of the comparison; nothing is said of ties. *)
Definition sort_conforms (srt : (level -> level -> Z) -> list level -> list level) : Prop :=
  forall cmp l, comparator cmp ->
    srt cmp l ≡ₚ l /\ StronglySorted (fun a b => cmp a b <= 0) (srt cmp l).

(** ** Statements *)

(** A statement either falls through to the next one with a value, or
    leaves the enclosing block with a jump [R] ([return v], [continue],
    [goto FAIL]); what follows a jump is not run. *)
Inductive flow (R A : Type) : Type :=
| Next (a : A)
| Leave (r : R).
Arguments Next {R A} a.
Arguments Leave {R A} r.

Definition stmt (R A : Type) : Type := world -> flow R A * world.

#[global] Instance stmt_ret {R} : MRet (stmt R) :=
  fun A a w => (Next a, w).

#[global] Instance stmt_bind {R} : MBind (stmt R) :=
  fun A B k m w =>
    match m w with
    | (Next a, w') => k a w'
    | (Leave r, w') => (Leave r, w')
    end.

Definition leave {R A} (r : R) : stmt R A := fun w => (Leave r, w).
Definition get_world {R} : stmt R world := fun w => (Next w, w).
Definition modify {R} (f : world -> world) : stmt R unit := fun w => (Next tt, f w).

(** [g_set_error(err, OPENSLIDE_ERROR, code, format, ...)]. *)
Definition g_set_error {R} (c : OpenslideError) (format : string) (args : list Z) : stmt R unit :=
  modify (set_err (Some (mkGError c format args))).

(** A host routine that failed has stored its own error in [err]. *)
Definition propagate_error {R} (e : GError) : stmt R unit :=
  modify (set_err (Some e)).

(** ** Slice blocks, grids and the tiffcache *)

(** An address no live block has. *)
Definition fresh (used : list Z) : Z := 1 + foldr Z.max 0 used.

Definition g_slice_alloc {R} (b : block) : stmt R Z :=
  w ← get_world;
  let a := fresh (fst <$> slices w) in
  modify (set_slices (slices w ++ [(a, b)]));;
  modify (add_log (Ev_slice_alloc a b));;
  mret a.

Definition g_slice_free {R} (b : block) (a : Z) : stmt R unit :=
  w ← get_world;
  modify (set_slices (filter (fun p => p.1 <> a) (slices w)));;
  modify (add_log (Ev_slice_free a b)).

Definition _openslide_grid_create_simple {R} (across down tw th : Z) : stmt R Z :=
  w ← get_world;
  let a := fresh (grid_addr <$> grids w) in
  modify (set_grids (grids w ++ [mkGrid a across down tw th]));;
  mret a.

Definition _openslide_grid_destroy {R} (g : Z) : stmt R unit :=
  w ← get_world;
  modify (set_grids (filter (fun x => grid_addr x <> g) (grids w))).

Definition _openslide_tiffcache_create {R} (filename : string) : stmt R unit :=
  modify (set_tc (TC_live false)).

Definition _openslide_tiffcache_get {R} (h : host) (filename : string) : stmt R (option TIFF) :=
  match tiffcache_open h filename with
  | Ok t => modify (set_tc (TC_live true));; mret (Some t)
  | Error e => propagate_error e;; mret None
  end.

Definition _openslide_tiffcache_put {R} : stmt R unit :=
  w ← get_world;
  match tc w with
  | TC_live _ => modify (set_tc (TC_live false))
  | _ => mret tt
  end.

Definition _openslide_tiffcache_destroy {R} : stmt R unit :=
  modify (set_tc TC_destroyed).

(** ** huron_detect *)

(** [_openslide_tifflike_get_buffer(tl, dir, tag, err)]: NULL with [err]
    set when the tag cannot be read. *)
Definition _openslide_tifflike_get_buffer {R} (tl : _openslide_tifflike) (d tag : Z) :
  stmt R (option string) :=
  modify (add_log (Ev_tifflike_get_buffer d tag));;
  match tl_buffer tl d tag with
  | Ok s => mret (Some s)
  | Error e => propagate_error e;; mret None
  end.

Definition huron_detect_body (filename : string) (tl : option _openslide_tifflike) :
  stmt bool unit :=
  (* ensure we have a TIFF *)
  tl ← match tl with
       | None =>
           g_set_error OPENSLIDE_ERROR_FAILED "Not a TIFF file" [];;
           leave false
       | Some tl => mret tl
       end;
  (* ensure TIFF is tiled *)
  (if negb (_openslide_tifflike_is_tiled tl 0) then
     g_set_error OPENSLIDE_ERROR_FAILED "TIFF is not tiled" [];;
     leave false
   else mret tt);;
  (leave true : stmt bool unit);;
  (* check manufacturer name *)
  maker ← _openslide_tifflike_get_buffer tl 0 TIFFTAG_MAKE;
  maker ← match maker with
          | None => leave false
          | Some maker => mret maker
          end;
  (if negb (g_str_has_prefix maker HURON_MAKER) then
     g_set_error OPENSLIDE_ERROR_FAILED "Not a Huron slide" [];;
     leave false
   else mret tt);;
  (* check scanner model *)
  model ← _openslide_tifflike_get_buffer tl 0 TIFFTAG_MODEL;
  model ← match model with
          | None => leave false
          | Some model => mret model
          end;
  (if negb (g_str_has_prefix model HURON_MODEL) then
     g_set_error OPENSLIDE_ERROR_FAILED "Not valid scanner model" [];;
     leave false
   else mret tt);;
  leave true.

(** The value a [bool] function returns is the [return] it left through;
    no function of this file falls off its end. *)
Definition returned (body : stmt bool unit) (w : world) : option bool * world :=
  match body w with
  | (Leave b, w') => (Some b, w')
  | (Next _, w') => (None, w')
  end.

Definition huron_detect (filename : string) (tl : option _openslide_tifflike) (w : world) :
  option bool * world :=
  returned (huron_detect_body filename tl) w.

(** ** width_compare *)

Definition width_compare (la lb : level) : Z :=
  if image_w (tiffl la) >? image_w (tiffl lb) then -1
  else if image_w (tiffl la) =? image_w (tiffl lb) then 0
  else 1.

(** ** huron_set_resolution_prop and huron_set_props *)

Definition OPENSLIDE_PROPERTY_NAME_MPP_X : string := "openslide.mpp-x".

(** A [void] function called as a statement: its [return] ends the call. *)
Definition call {R} (body : stmt unit unit) : stmt R unit :=
  fun w => (Next tt, snd (body w)).

Definition huron_set_resolution_prop (h : host) (tl : _openslide_tifflike)
    (d : Z) (tag : Z) (property_name : string) : stmt unit unit :=
  unit ← match _openslide_tifflike_get_uint tl d TIFFTAG_RESOLUTIONUNIT with
         | Ok unit => mret unit
         | Error tmp_err =>
             if g_error_matches tmp_err OPENSLIDE_ERROR_NO_VALUE then
               mret RESUNIT_INCH (* default *)
             else leave tt
         end;
  match _openslide_tifflike_get_float tl d tag with
  | Ok res =>
      if unit =? RESUNIT_CENTIMETER then
        modify (fun w =>
          set_osr (set_properties
                     (<[property_name := _openslide_format_double h (10000 / res)%float]>
                        (properties (osr w)))
                     (osr w)) w)
      else mret tt
  | Error _ => mret tt
  end.

Definition huron_set_props (h : host) (tl : _openslide_tifflike) (d : Z) : stmt unit unit :=
  (* MPP *)
  call (huron_set_resolution_prop h tl d TIFFTAG_XRESOLUTION OPENSLIDE_PROPERTY_NAME_MPP_X).

(** ** huron_open *)

(** How control leaves a block of [huron_open]: [continue], [goto FAIL],
    [return], or a crash of the process. *)
Inductive crash : Type :=
| Out_of_bounds_read
| Null_dereference
| Assertion_failed.

Inductive jump : Type :=
| CONTINUE
| FAIL
| RETURN (v : bool)
| CRASH (c : crash).

Definition GET_FIELD_OR_FAIL (tiff : directory) (tag : Z) : stmt jump Z :=
  match TIFFGetField_uint32 tiff tag with
  | None =>
      g_set_error OPENSLIDE_ERROR_FAILED "Cannot get required TIFF tag: %d" [tag];;
      leave FAIL
  | Some tmp => mret tmp
  end.

(** Modelled from the spec: the associated-image registrar of the host,
    [register(name, container-handle-source, directory index)].  When the
    host accepts the directory the image is stored under [name] in
    [osr->associated_images]; otherwise [err] is set. *)
Definition _openslide_tiff_add_associated_image (h : host) (name : string)
    (d : Z) (tiff : directory) : stmt jump bool :=
  match add_associated_image_check h name d tiff with
  | Ok _ =>
      modify (fun w =>
        set_osr (set_associated_images (<[name := d]> (associated_images (osr w))) (osr w)) w);;
      mret true
  | Error e => propagate_error e;; mret false
  end.

(** [_openslide_tifflike_init_properties_and_hash(osr, tl, quickhash1,
    lowest_resolution_level, property_dir, err)]. *)
Definition _openslide_tifflike_init_properties_and_hash (h : host)
    (tl : _openslide_tifflike) (lowest_resolution_level property_dir : Z) : stmt jump bool :=
  modify (add_log (Ev_init_properties_and_hash lowest_resolution_level property_dir));;
  w ← get_world;
  match init_properties_and_hash h tl (properties (osr w))
                                 lowest_resolution_level property_dir with
  | Ok props => modify (fun w => set_osr (set_properties props (osr w)) w);; mret true
  | Error e => propagate_error e;; mret false
  end.

Definition g_ptr_array_add (l : level) : stmt jump unit :=
  w ← get_world;
  match level_array w with
  | Some arr => modify (set_level_array (Some (arr ++ [l])))
  | None => leave (CRASH Null_dereference)
  end.

(** The body of the [do ... while] loop on the current directory [tiff],
    whose number [TIFFCurrentDirectory] returns. *)
Definition huron_open_directory (h : host) (tiff : directory) (TIFFCurrentDirectory : Z) :
  stmt jump unit :=
  (* get directory *)
  let dir := TIFFCurrentDirectory in
  subfiletype ← match TIFFGetField_uint32 tiff TIFFTAG_SUBFILETYPE with
                | None =>
                    modify (add_log (Ev_stderr "failed to fetch subfiletype at dir %d\n" dir));;
                    leave CONTINUE
                | Some subfiletype => mret subfiletype
                end;
  (* non-tile flat-image *)
  if negb (TIFFIsTiled tiff) then
    (* read image dimension *)
    iw ← GET_FIELD_OR_FAIL tiff TIFFTAG_IMAGEWIDTH;
    ih ← GET_FIELD_OR_FAIL tiff TIFFTAG_IMAGELENGTH;
    ir ← GET_FIELD_OR_FAIL tiff TIFFTAG_ROWSPERSTRIP;
    (if negb (ir =? 1) || (iw <=? 0) || (ih <=? 0) then leave CONTINUE else mret tt);;
    (* read ImageDescription *)
    image_desc ← match TIFFGetField_ascii tiff TIFFTAG_IMAGEDESCRIPTION with
                 | None => leave CONTINUE
                 | Some image_desc => mret image_desc
                 end;
    let image_desc := g_strstrip image_desc in (* never NULL from here on *)
    (if (dir =? 1) && (subfiletype =? 0) then
       ok ← _openslide_tiff_add_associated_image h "thumbnail" dir tiff;
       if negb ok then leave FAIL else mret tt
     else if g_str_has_prefix image_desc LABEL_DESCRIPTION then
       ok ← _openslide_tiff_add_associated_image h "label" dir tiff;
       if negb ok then leave FAIL else mret tt
     else if g_str_has_prefix image_desc MACRO_DESCRIPTION then
       ok ← _openslide_tiff_add_associated_image h "macro" dir tiff;
       if negb ok then leave FAIL else mret tt
     else mret tt);;
    (* end of non-tile handling *)
    leave CONTINUE
  else
    (* handle tiled directory now, ignore subtype *)
    (* verify that we can read this compression (hard fail if not) *)
    compression ← match TIFFGetField_uint16 tiff TIFFTAG_COMPRESSION with
                  | None =>
                      g_set_error OPENSLIDE_ERROR_FAILED "Can't read compression scheme" [];;
                      leave FAIL
                  | Some compression => mret compression
                  end;
    (if negb (TIFFIsCODECConfigured h compression) then
       g_set_error OPENSLIDE_ERROR_FAILED "Unsupported TIFF compression: %u" [compression];;
       leave FAIL
     else mret tt);;
    (* create level *)
    l ← g_slice_alloc Block_level;
    tiffl ← match _openslide_tiff_level_init h tiff dir with
            | Error e =>
                propagate_error e;;
                g_slice_free Block_level l;;
                leave FAIL
            | Ok tiffl => mret tiffl
            end;
    grid ← _openslide_grid_create_simple (tiles_across tiffl) (tiles_down tiffl)
                                         (tile_w tiffl) (tile_h tiffl);
    (* add to array *)
    g_ptr_array_add (mkLevel l tiffl grid).

(** [do { ... } while (TIFFReadDirectory(tiff))]: [continue] and the end of
    the body both reach the loop test; any other jump leaves the loop. *)
Fixpoint huron_open_loop (h : host) (tiff : directory) (dir : Z) (rest : list directory)
    (w : world) : flow jump unit * world :=
  let next w' :=
    match rest with
    | [] => (Next tt, w')
    | tiff' :: rest' => huron_open_loop h tiff' (dir + 1) rest' w'
    end in
  match huron_open_directory h tiff dir w with
  | (Next _, w') => next w'
  | (Leave CONTINUE, w') => next w'
  | (Leave j, w') => (Leave j, w')
  end.

(** [array->pdata[i]]: reading outside the array crashes. *)
Definition pdata (arr : list level) (i : Z) : stmt jump level :=
  match (if (0 <=? i) && (i <? Z.of_nat (length arr)) then arr !! Z.to_nat i else None) with
  | Some l => mret l
  | None => leave (CRASH Out_of_bounds_read)
  end.

Definition g_assert (b : bool) : stmt jump unit :=
  if b then mret tt else leave (CRASH Assertion_failed).

Definition bool_of_option {A} (o : option A) : bool :=
  match o with Some _ => true | None => false end.

(** The function from its first statement to the end of the loop. *)
Definition huron_open_scan (h : host) (filename : string) : stmt jump unit :=
  modify (set_level_array (Some []));;
  (* open TIFF *)
  _openslide_tiffcache_create filename;;
  tiff ← _openslide_tiffcache_get h filename;
  tiff ← match tiff with
         | None => leave FAIL
         | Some tiff => mret tiff
         end;
  (* accumulate tiled levels *)
  huron_open_loop h (fst tiff) 0 (snd tiff).

(** The function from the sort to [return true]. *)
Definition huron_open_finish (h : host) (tl : _openslide_tifflike) : stmt jump unit :=
  (* sort tiled levels *)
  modify (fun w => set_level_array (g_ptr_array_sort h width_compare <$> level_array w) w);;
  (* set hash and properties *)
  w ← get_world;
  arr ← match level_array w with
        | Some arr => mret arr
        | None => leave (CRASH Null_dereference)
        end;
  let len := Z.of_nat (length arr) mod 2 ^ 32 in
  top_level ← pdata arr ((len - 1) mod 2 ^ 32);
  ok ← _openslide_tifflike_init_properties_and_hash h tl (dir (tiffl top_level)) 0;
  (if negb ok then leave FAIL else mret tt);;
  (* unwrap level array *)
  let count := (len + 2 ^ 31) mod 2 ^ 32 - 2 ^ 31 in
  let unwrapped := arr in
  modify (set_level_array None);;
  (* allocate private data *)
  ops_data ← g_slice_alloc Block_huron_ops_data;
  (* store osr data *)
  w ← get_world;
  g_assert (negb (bool_of_option (data (osr w))));;
  g_assert (negb (bool_of_option (levels (osr w))));;
  modify (fun w =>
    set_osr (mkOsr true (Some unwrapped) count (Some (mkData ops_data false))
                   (properties (osr w)) (associated_images (osr w)) (cache (osr w))) w);;
  (* put TIFF handle and store tiffcache reference *)
  _openslide_tiffcache_put;;
  modify (fun w => set_osr (set_data (Some (mkData ops_data true)) (osr w)) w);;
  call (huron_set_props h tl 0);;
  leave (RETURN true).

(** The statements under the label [FAIL]. *)
Definition huron_open_FAIL : stmt jump unit :=
  w ← get_world;
  (* free the level array *)
  match level_array w with
  | Some arr =>
      foldr (fun l k =>
               _openslide_grid_destroy (grid l);;
               g_slice_free Block_level (level_addr l);;
               k)
            (mret tt) arr;;
      modify (set_level_array None)
  | None => mret tt
  end;;
  (* free TIFF *)
  _openslide_tiffcache_put;;
  _openslide_tiffcache_destroy;;
  leave (RETURN false).

(** The whole function: a [goto FAIL] anywhere above runs the statements
    under the label. *)
Definition huron_open (h : host) (filename : string) (tl : _openslide_tifflike) :
  stmt jump unit :=
  fun w =>
    match (huron_open_scan h filename;; huron_open_finish h tl) w with
    | (Leave FAIL, w') => huron_open_FAIL w'
    | r => r
    end.

(** ** read_tile *)

(** Two's-complement values of [int64_t] and [int]. *)
Definition int64 (z : Z) : Z := (z + 2 ^ 63) mod 2 ^ 64 - 2 ^ 63.
Definition int32 (z : Z) : Z := (z + 2 ^ 31) mod 2 ^ 32 - 2 ^ 31.

(** [tw * th * 4] on [int64_t] operands, and its value as a [gsize]. *)
Definition tile_bytes (tw th : Z) : Z := int64 (int64 (tw * th) * 4).
Definition gsize (z : Z) : Z := z mod 2 ^ 64.

(** Modelled from the spec: the tile cache of the host,
    [get(level, col, row) → optional buffer + release handle].  A hit hands
    out one more reference to the entry; a miss leaves the cache as it is. *)
Definition _openslide_cache_get (l : level) (tile_col tile_row : Z) :
  stmt bool (option (Z * pixels)) :=
  w ← get_world;
  match cache (osr w) !! (level_addr l, tile_col, tile_row) with
  | Some e =>
      modify (fun w =>
        set_osr (set_cache
                   (<[(level_addr l, tile_col, tile_row) :=
                        mkEntry (entry_data e) (entry_pixels e) (entry_size e) (entry_refs e + 1)]>
                      (cache (osr w)))
                   (osr w)) w);;
      mret (Some (entry_data e, entry_pixels e))
  | None => mret None
  end.

(** Modelled from the spec: the tile cache of the host,
    [put(level, col, row, buffer, size) → release handle].  The cache takes
    the buffer and hands out one reference to the new entry. *)
Definition _openslide_cache_put (l : level) (tile_col tile_row : Z)
    (tiledata : Z) (px : pixels) (size : Z) : stmt bool unit :=
  modify (fun w =>
    set_osr (set_cache
               (<[(level_addr l, tile_col, tile_row) := mkEntry tiledata px size 1]>
                  (cache (osr w)))
               (osr w)) w).

(** Modelled from the spec: the release handle of a cache entry is given
    back; the entry keeps its buffer. *)
Definition _openslide_cache_entry_unref (l : level) (tile_col tile_row : Z) : stmt bool unit :=
  modify (fun w =>
    set_osr (set_cache
               (alter (fun e => mkEntry (entry_data e) (entry_pixels e) (entry_size e)
                                        (entry_refs e - 1))
                      (level_addr l, tile_col, tile_row) (cache (osr w)))
               (osr w)) w).

Definition read_tile_body (h : host) (l : level) (tile_col tile_row : Z) : stmt bool unit :=
  let tiffl := tiffl l in
  (* tile size *)
  let tw := tile_w tiffl in
  let th := tile_h tiffl in
  (* cache *)
  hit ← _openslide_cache_get l tile_col tile_row;
  tiledata ← match hit with
             | Some tiledata => mret tiledata
             | None =>
                 tiledata ← g_slice_alloc (Block_tile (gsize (tile_bytes tw th)));
                 px ← match _openslide_tiff_read_tile h tiffl tile_col tile_row with
                      | Error e =>
                          propagate_error e;;
                          g_slice_free (Block_tile (gsize (tile_bytes tw th))) tiledata;;
                          leave false
                      | Ok px => mret px
                      end;
                 (* clip, if necessary *)
                 px ← match _openslide_tiff_clip_tile h tiffl px tile_col tile_row with
                      | Error e =>
                          propagate_error e;;
                          g_slice_free (Block_tile (gsize (tile_bytes tw th))) tiledata;;
                          leave false
                      | Ok px => mret px
                      end;
                 (* put it in the cache *)
                 _openslide_cache_put l tile_col tile_row tiledata px (tile_bytes tw th);;
                 mret (tiledata, px)
             end;
  (* draw it *)
  modify (add_log (Ev_paint tiledata.2 (int32 tw) (int32 th) (int32 (int64 (tw * 4)))));;
  (* done with the cache entry, release it *)
  _openslide_cache_entry_unref l tile_col tile_row;;
  leave true.

Definition read_tile (h : host) (l : level) (tile_col tile_row : Z) (w : world) :
  option bool * world :=
  returned (read_tile_body h l tile_col tile_row) w.

(** ** destroy *)

(** The body of the [for] loop of [destroy] at index [i]. *)
Definition destroy_level (i : Z) : stmt jump unit :=
  w ← get_world;
  levels ← match levels (osr w) with
           | Some levels => mret levels
           | None => leave (CRASH Null_dereference)
           end;
  l ← pdata levels i;
  _openslide_grid_destroy (grid l);;
  g_slice_free Block_level (level_addr l).

(** [destroy(osr)].  A NULL [tc] has nothing to destroy.  The array behind
    [osr->levels], like the [GPtrArray] it came from, is not among the
    blocks the state tracks, so [g_free(osr->levels)] leaves the state as
    it is; the function does not reset any field of [osr]. *)
Definition destroy : stmt jump unit :=
  w ← get_world;
  data ← match data (osr w) with
         | Some data => mret data
         | None => leave (CRASH Null_dereference)
         end;
  (if data_tc data then _openslide_tiffcache_destroy else mret tt);;
  g_slice_free Block_huron_ops_data (data_addr data);;
  foldr (fun i k => destroy_level i;; k) (mret tt)
        (Z.of_nat <$> seq 0 (Z.to_nat (level_count (osr w)))).

(** ** The state of a scan *)

(** The slice block and the grid a level of the array owns. *)
Definition level_block (l : level) : Z * block := (level_addr l, Block_level).

Definition level_grid (l : level) : simple_grid :=
  mkGrid (grid l) (tiles_across (tiffl l)) (tiles_down (tiffl l))
         (tile_w (tiffl l)) (tile_h (tiffl l)).

(** The state in which [huron_open] enters its loop, and the outcome of the
    loop on an opened [file]. *)
Definition scan_start (w : world) : world :=
  set_tc (TC_live true) (set_tc (TC_live false) (set_level_array (Some []) w)).

Definition scanned (h : host) (file : TIFF) (w : world) : flow jump unit * world :=
  huron_open_loop h file.1 0 file.2 (scan_start w).

(** What holds of the state [w] while the loop runs from [w0] with [arr]
    accumulated: beyond what was live in [w0], exactly the blocks and
    grids of [arr] are live, the handle is out, and of the image object
    only the associated images have changed. *)
Record scanning (w0 w : world) (arr : list level) : Prop := mkScanning {
  scan_array : level_array w = Some arr;
  scan_slices : slices w = slices w0 ++ (level_block <$> arr);
  scan_grids : grids w = grids w0 ++ (level_grid <$> arr);
  scan_fresh_slices : Forall (fun l => level_addr l ∉ (slices w0).*1) arr;
  scan_fresh_grids : Forall (fun l => grid l ∉ grid_addr <$> grids w0) arr;
  scan_tc : tc w = TC_live true;
  scan_levels : levels (osr w) = levels (osr w0);
  scan_data : data (osr w) = data (osr w0);
  scan_properties : properties (osr w) = properties (osr w0);
  scan_log : forall a b,
    Ev_init_properties_and_hash a b ∈ log w -> Ev_init_properties_and_hash a b ∈ log w0;
}.

(** The events of the scan: everything but the call of the extractor. *)
Definition scan_event (e : event) : Prop :=
  match e with
  | Ev_init_properties_and_hash _ _ => False
  | _ => True
  end.

(** A tiled directory, its subfiletype readable, whose compression tag is
    unreadable or names a codec the host lacks. *)
Definition undecodable (h : host) (tiff : directory) : Prop :=
  is_Some (TIFFGetField_uint32 tiff TIFFTAG_SUBFILETYPE) /\
  TIFFIsTiled tiff = true /\
  match TIFFGetField_uint16 tiff TIFFTAG_COMPRESSION with
  | None => True
  | Some compression => TIFFIsCODECConfigured h compression = false
  end.

(** A directory that is not tiled, its subfiletype readable, which lacks
    the width, the length or the rows-per-strip tag. *)
Definition lacks_dimension (tiff : directory) : Prop :=
  is_Some (TIFFGetField_uint32 tiff TIFFTAG_SUBFILETYPE) /\
  TIFFIsTiled tiff = false /\
  (TIFFGetField_uint32 tiff TIFFTAG_IMAGEWIDTH = None \/
   TIFFGetField_uint32 tiff TIFFTAG_IMAGELENGTH = None \/
   TIFFGetField_uint32 tiff TIFFTAG_ROWSPERSTRIP = None).

(** The properties [huron_set_resolution_prop] leaves behind, as a function
    of those it found. *)
Definition resolution_prop (h : host) (tl : _openslide_tifflike) (d tag : Z)
    (property_name : string) (props : gmap string string) : gmap string string :=
  match _openslide_tifflike_get_uint tl d TIFFTAG_RESOLUTIONUNIT,
        _openslide_tifflike_get_float tl d tag with
  | Ok unit, Ok res =>
      if unit =? RESUNIT_CENTIMETER then
        <[property_name := _openslide_format_double h (10000 / res)%float]> props
      else props
  | _, _ => props
  end.

(** The element [huron_open] reads as [pdata[len - 1]], if there is one. *)
Definition top_of (arr : list level) : option level :=
  let i := ((Z.of_nat (length arr) mod 2 ^ 32) - 1) mod 2 ^ 32 in
  if (0 <=? i) && (i <? Z.of_nat (length arr)) then arr !! Z.to_nat i else None.

(** Rules 3 and 4 of the directory classifier as the specification words
    them, for a directory at [file_position] (counted from 1) that has
    passed rules 1 and 2: no description, skip; the second directory with
    the default subfile-type, "thumbnail"; else a trimmed description that
    starts with "label", "label"; else one that starts with "macro",
    "macro"; else skip. *)
Inductive classification : Type :=
| Associated (name : string)
| Skip.

Definition spec_associated_image (file_position subfiletype : Z)
    (description : option string) : classification :=
  match description with
  | None => Skip
  | Some text =>
      if (file_position =? 2) && (subfiletype =? 0) then Associated "thumbnail"
      else if String.prefix "label" (g_strstrip text) then Associated "label"
      else if String.prefix "macro" (g_strstrip text) then Associated "macro"
      else Skip
  end.

(** The directories of a file with their numbers, from [d] on. *)
Fixpoint numbered (d : Z) (dirs : list directory) : list (Z * directory) :=
  match dirs with
  | [] => []
  | tiff :: rest => (d, tiff) :: numbered (d + 1) rest
  end.

(** A directory the loop takes for a level: its subfiletype tag is
    readable and it is tiled. *)
Definition level_candidate (tiff : directory) : bool :=
  bool_of_option (TIFFGetField_uint32 tiff TIFFTAG_SUBFILETYPE) && TIFFIsTiled tiff.

(** A directory, numbered [d], that the loop can register under [name]:
    not tiled, with a readable subfiletype, one row per strip, a positive
    width and length and a description, and classified [name]. *)
Definition registrable (d : Z) (tiff : directory) (name : string) : Prop :=
  TIFFIsTiled tiff = false /\
  TIFFGetField_uint32 tiff TIFFTAG_ROWSPERSTRIP = Some 1 /\
  exists subfiletype iw ih,
    TIFFGetField_uint32 tiff TIFFTAG_SUBFILETYPE = Some subfiletype /\
    TIFFGetField_uint32 tiff TIFFTAG_IMAGEWIDTH = Some iw /\ 0 < iw /\
    TIFFGetField_uint32 tiff TIFFTAG_IMAGELENGTH = Some ih /\ 0 < ih /\
    spec_associated_image (d + 1) subfiletype
      (TIFFGetField_ascii tiff TIFFTAG_IMAGEDESCRIPTION) = Associated name.

(** ** Sample inputs *)

(** A sort that conforms to GLib's contract: stable insertion. *)
Fixpoint insert_by {A} (cmp : A -> A -> Z) (x : A) (l : list A) : list A :=
  match l with
  | [] => [x]
  | y :: l' => if cmp x y <=? 0 then x :: l else y :: insert_by cmp x l'
  end.

Definition insertion_sort {A} (cmp : A -> A -> Z) (l : list A) : list A :=
  foldr (insert_by cmp) [] l.

Definition host_failure : GError := mkGError OPENSLIDE_ERROR_FAILED "host routine failed" [].
Definition no_value : GError := mkGError OPENSLIDE_ERROR_NO_VALUE "no such value" [].

(** A level geometry helper that reads the width and length tags and cuts
    the image into tiles of 256 by 256. *)
Definition sample_level_init (tiff : directory) (d : Z) : result _openslide_tiff_level :=
  match TIFFGetField_uint32 tiff TIFFTAG_IMAGEWIDTH,
        TIFFGetField_uint32 tiff TIFFTAG_IMAGELENGTH with
  | Some iw, Some ih =>
      Ok (mkTiffLevel d iw ih 256 256 ((iw + 255) / 256) ((ih + 255) / 256))
  | _, _ => Error host_failure
  end.

Definition sample_format_double (f : float) : string :=
  if PrimFloat.eqb f 20 then "20" else "other".

(** A host that opens [file] under every name, decodes uncompressed (1) and
    JPEG (7) tiles, accepts every associated image and leaves the
    properties as they are. *)
Definition sample_host (file : TIFF) : host :=
  mkHost (fun _ => Ok file)
         (fun c => (c =? 1) || (c =? 7))
         sample_level_init
         (fun _ _ _ => Ok tt)
         (fun _ props _ _ => Ok props)
         sample_format_double
         insertion_sort
         (fun _ col row => if (col =? 0) && (row =? 0) then Ok [1; 2; 3; 4] else Error host_failure)
         (fun _ px col row => Ok px).

(** The same host with another conforming sort, which takes the array in
    reverse before it inserts. *)
Definition reversing_host (file : TIFF) : host :=
  mkHost (fun _ => Ok file)
         (fun c => (c =? 1) || (c =? 7))
         sample_level_init
         (fun _ _ _ => Ok tt)
         (fun _ props _ _ => Ok props)
         sample_format_double
         (fun cmp l => insertion_sort cmp (rev l))
         (fun _ col row => if (col =? 0) && (row =? 0) then Ok [1; 2; 3; 4] else Error host_failure)
         (fun _ px col row => Ok px).

(** The directories of a level list, in its order. *)
Definition directories_of (ls : option (list level)) : option (list Z) :=
  match ls with
  | Some ls => Some (map (fun l => dir (tiffl l)) ls)
  | None => None
  end.

Definition tiled_directory (subfiletype : option Z) (width : Z) (compression : Z) : directory :=
  mkDirectory true
    (match subfiletype with
     | Some t => <[TIFFTAG_SUBFILETYPE := t]>
     | None => fun m => m
     end
       (<[TIFFTAG_IMAGEWIDTH := width]>
          (<[TIFFTAG_IMAGELENGTH := width]>
             (<[TIFFTAG_COMPRESSION := compression]> ∅))))
    ∅.

Definition flat_directory (subfiletype : option Z) (rows_per_strip : Z)
    (description : option string) : directory :=
  mkDirectory false
    (match subfiletype with
     | Some t => <[TIFFTAG_SUBFILETYPE := t]>
     | None => fun m => m
     end
       (<[TIFFTAG_IMAGEWIDTH := 640]>
          (<[TIFFTAG_IMAGELENGTH := 480]>
             (<[TIFFTAG_ROWSPERSTRIP := rows_per_strip]> ∅))))
    (match description with
     | Some s => {[TIFFTAG_IMAGEDESCRIPTION := s]}
     | None => ∅
     end).

(** Tag tables in which directory 0 is tiled and only the listed
    directories carry a resolution unit and an X resolution. *)
Definition sample_tifflike (units : list (Z * Z)) (xres : list (Z * float)) :
  _openslide_tifflike :=
  mkTifflike (fun d => d =? 0)
             (fun _ _ => Error no_value)
             (fun d tag =>
                if tag =? TIFFTAG_RESOLUTIONUNIT then
                  match (list_to_map units : gmap Z Z) !! d with
                  | Some u => Ok u
                  | None => Error no_value
                  end
                else Error no_value)
             (fun d tag =>
                if tag =? TIFFTAG_XRESOLUTION then
                  match (list_to_map xres : gmap Z float) !! d with
                  | Some r => Ok r
                  | None => Error no_value
                  end
                else Error no_value).

(** A level of 1000 by 1000 pixels in tiles of 256 by 256. *)
Definition sample_level : level := mkLevel 1 (mkTiffLevel 0 1000 1000 256 256 4 4) 1.

Definition empty_osr : openslide_t := mkOsr false None 0 None ∅ ∅ ∅.
Definition initial_world : world := mkWorld None empty_osr None [] [] TC_none [].

(** A slide whose only directory is tiled and carries no subfiletype tag. *)
Definition untagged_slide : TIFF := (tiled_directory None 1000 7, []).

(** A slide of two levels, the wide one first, with a thumbnail, a label
    and a macro image. *)
Definition two_level_slide : TIFF :=
  (tiled_directory (Some 0) 4000 7,
   [flat_directory (Some 0) 1 (Some "thumbnail");
    tiled_directory (Some 1) 1000 7;
    flat_directory (Some 1) 1 (Some " label - 42 ");
    flat_directory (Some 1) 1 (Some "macro")]).

(** Two levels of the same width. *)
Definition tied_slide : TIFF :=
  (tiled_directory (Some 0) 4000 7, [tiled_directory (Some 1) 4000 7]).

(** A level followed by a tiled directory that has no subfiletype tag and
    a compression (99) the host cannot decode. *)
Definition untagged_undecodable_slide : TIFF :=
  (tiled_directory (Some 0) 4000 7, [tiled_directory None 8000 99]).

(** A level followed by a wider tiled directory that has no subfiletype
    tag and a compression (7) the host decodes. *)
Definition untagged_level_slide : TIFF :=
  (tiled_directory (Some 0) 4000 7, [tiled_directory None 8000 7]).

(** A level followed by a flat directory described as a label that has no
    subfiletype tag. *)
Definition untagged_label_slide : TIFF :=
  (tiled_directory (Some 0) 4000 7, [flat_directory None 1 (Some "label")]).

(** Two levels followed by a tiled directory, wider than both, that has no
    subfiletype tag. *)
Definition wider_untagged_slide : TIFF :=
  (tiled_directory (Some 0) 4000 7,
   [tiled_directory (Some 1) 1000 7; tiled_directory None 8000 7]).

(** The description "label" behind a vertical tab (byte 11), and a level
    followed by a flat directory so described. *)
Definition vertical_tab_label : string := String (Ascii.ascii_of_N 11) "label".

Definition vertical_tab_slide : TIFF :=
  (tiled_directory (Some 0) 4000 7,
   [flat_directory (Some 1) 1 (Some "thumbnail");
    flat_directory (Some 1) 1 (Some vertical_tab_label)]).

(** A level followed by a directory that is not tiled and has no tag. *)
Definition untagged_bare_slide : TIFF :=
  (tiled_directory (Some 0) 4000 7, [mkDirectory false ∅ ∅]).

(** A level followed by a tiled directory with an unsupported compression,
    and a level followed by a flat directory without a width. *)
Definition undecodable_slide : TIFF :=
  (tiled_directory (Some 0) 4000 7, [tiled_directory (Some 1) 1000 99]).

Definition widthless_slide : TIFF :=
  (tiled_directory (Some 0) 4000 7,
   [mkDirectory false {[TIFFTAG_SUBFILETYPE := 0; TIFFTAG_IMAGELENGTH := 480;
                        TIFFTAG_ROWSPERSTRIP := 1]} ∅]).

(** A level, a thumbnail, and then a tiled directory the host cannot
    decode. *)
Definition thumbnail_then_undecodable_slide : TIFF :=
  (tiled_directory (Some 0) 4000 7,
   [flat_directory (Some 0) 1 (Some "thumbnail"); tiled_directory (Some 1) 1000 99]).

(** A slide none of whose directories has a subfiletype tag. *)
Definition wholly_untagged_slide : TIFF :=
  (tiled_directory None 4000 7,
   [flat_directory None 1 (Some "label"); tiled_directory None 1000 7]).

(** Tag tables that give a resolution in centimeters to directory 0 only,
    and to directory 2 only. *)
Definition resolution_in_directory_0 : _openslide_tifflike :=
  sample_tifflike [(0, RESUNIT_CENTIMETER)] [(0, 500%float)].

Definition resolution_in_directory_2 : _openslide_tifflike :=
  sample_tifflike [(2, RESUNIT_CENTIMETER)] [(2, 500%float)].

(** * Properties *)

Ltac exec :=
  repeat (unfold mbind, mret, stmt_bind, stmt_ret, leave, modify, get_world,
            g_set_error, propagate_error, call, returned; simpl).

(** ** Detection *)

Lemma huron_detect_unfold filename tl w :
  huron_detect filename tl w =
    match tl with
    | None =>
        (Some false, set_err (Some (mkGError OPENSLIDE_ERROR_FAILED "Not a TIFF file" [])) w)
    | Some t =>
        if _openslide_tifflike_is_tiled t 0 then (Some true, w)
        else (Some false,
              set_err (Some (mkGError OPENSLIDE_ERROR_FAILED "TIFF is not tiled" [])) w)
    end.
Proof.
  unfold huron_detect, huron_detect_body.
  destruct tl as [t|]; exec; [|reflexivity].
  destruct (_openslide_tifflike_is_tiled t 0); reflexivity.
Qed.

(** C4: every file [huron_detect] accepts is a tiled TIFF; on a tiled TIFF
    it returns [true] at once, leaving the state as it was, and it never
    reads the maker or model tag (the log gains no buffer read). *)
Theorem huron_detect_accepts_tiled filename tl w :
  ((huron_detect filename tl w).1 = Some true <->
     exists t, tl = Some t /\ _openslide_tifflike_is_tiled t 0 = true) /\
  (forall t, tl = Some t -> _openslide_tifflike_is_tiled t 0 = true ->
     huron_detect filename tl w = (Some true, w)) /\
  (forall d tag, Ev_tifflike_get_buffer d tag ∈ log (huron_detect filename tl w).2 ->
     Ev_tifflike_get_buffer d tag ∈ log w).
Proof.
  rewrite huron_detect_unfold. repeat split.
  - destruct tl as [t|]; simpl; [|discriminate].
    destruct (_openslide_tifflike_is_tiled t 0) eqn:E; simpl; [eauto | discriminate].
  - intros (t & -> & ->). reflexivity.
  - intros t -> ->. reflexivity.
  - intros d tag. destruct tl as [t|]; simpl; [|tauto].
    destruct (_openslide_tifflike_is_tiled t 0); simpl; tauto.
Qed.

(** A vendor check would reject this file: its maker is not Huron, and it
    is accepted all the same. *)
Example huron_detect_other_vendor :
  huron_detect "slide.tif"
    (Some (mkTifflike (fun _ => true) (fun _ _ => Ok "Aperio") (fun _ _ => Error no_value)
                      (fun _ _ => Error no_value)))
    initial_world = (Some true, initial_world).
Proof. reflexivity. Qed.

(** ** Slice blocks *)

Lemma fresh_gt (used : list Z) (a : Z) : a ∈ used -> a < fresh used.
Proof.
  unfold fresh. induction used as [|x used IH]; simpl.
  - intros H. inversion H.
  - intros H. apply elem_of_cons in H as [->|H]; [lia|].
    specialize (IH H). lia.
Qed.

Lemma fresh_not_elem (used : list Z) : fresh used ∉ used.
Proof. intros H. apply fresh_gt in H. lia. Qed.

Lemma filter_all {A} (P : A -> Prop) `{forall x, Decision (P x)} (l : list A) :
  (forall x, x ∈ l -> P x) -> filter P l = l.
Proof.
  induction l as [|x l IH]; intros Hall; [reflexivity|].
  rewrite filter_cons_True by (apply Hall; left).
  f_equal. apply IH. intros y Hy. apply Hall. right. exact Hy.
Qed.

Lemma filter_none {A} (P : A -> Prop) `{forall x, Decision (P x)} (l : list A) :
  (forall x, x ∈ l -> ~ P x) -> filter P l = [].
Proof.
  induction l as [|x l IH]; intros Hnone; [reflexivity|].
  rewrite filter_cons_False by (apply Hnone; left).
  apply IH. intros y Hy. apply Hnone. right. exact Hy.
Qed.

Lemma filter_fresh_slices (s : list (Z * block)) (a : Z) :
  a ∉ s.*1 -> filter (fun p => p.1 <> a) s = s.
Proof.
  induction s as [|p s IH]; simpl; [reflexivity|].
  intros H. apply not_elem_of_cons in H as [Hp Hs].
  rewrite filter_cons_True by congruence. f_equal. auto.
Qed.

Lemma alloc_then_free (s : list (Z * block)) (b : block) :
  filter (fun p => p.1 <> fresh s.*1) (s ++ [(fresh s.*1, b)]) = s.
Proof.
  rewrite filter_app, filter_fresh_slices by apply fresh_not_elem.
  rewrite filter_cons_False, filter_nil by (simpl; tauto).
  apply app_nil_r.
Qed.

(** ** The tile reader *)

Lemma tile_bytes_in_range (tw th : Z) :
  0 <= tw * th * 4 < 2 ^ 63 -> gsize (tile_bytes tw th) = tw * th * 4 /\
                               tile_bytes tw th = tw * th * 4.
Proof.
  intros H. unfold gsize, tile_bytes, int64.
  assert (E1 : (tw * th + 2 ^ 63) mod 2 ^ 64 = tw * th + 2 ^ 63)
    by (apply Z.mod_small; lia).
  rewrite E1.
  replace (tw * th + 2 ^ 63 - 2 ^ 63) with (tw * th) by lia.
  assert (E2 : (tw * th * 4 + 2 ^ 63) mod 2 ^ 64 = tw * th * 4 + 2 ^ 63)
    by (apply Z.mod_small; lia).
  rewrite E2.
  replace (tw * th * 4 + 2 ^ 63 - 2 ^ 63) with (tw * th * 4) by lia.
  split; [apply Z.mod_small; lia | reflexivity].
Qed.

(** C8: on a cache miss [read_tile] allocates [tile_w * tile_h * 4] bytes
    and decodes into them.  When decoding or clipping fails it frees the
    buffer and returns [false] with the underlying error, the cache and the
    live blocks being what they were; only when both succeed does the
    cache gain an entry, which holds the decoded and clipped buffer. *)
Theorem read_tile_miss h l col row w :
  cache (osr w) !! (level_addr l, col, row) = None ->
  0 <= tile_w (tiffl l) * tile_h (tiffl l) * 4 < 2 ^ 63 ->
  exists b w',
    read_tile h l col row w = (Some b, w') /\
    exists later,
      log w' = log w ++
        Ev_slice_alloc (fresh (slices w).*1)
                       (Block_tile (tile_w (tiffl l) * tile_h (tiffl l) * 4)) :: later /\
      match _openslide_tiff_read_tile h (tiffl l) col row with
      | Error e =>
          b = false /\ err w' = Some e /\ osr w' = osr w /\ slices w' = slices w
      | Ok decoded =>
          match _openslide_tiff_clip_tile h (tiffl l) decoded col row with
          | Error e =>
              b = false /\ err w' = Some e /\ osr w' = osr w /\ slices w' = slices w
          | Ok clipped =>
              b = true /\ err w' = err w /\
              cache (osr w') =
                <[(level_addr l, col, row) :=
                    mkEntry (fresh (slices w).*1) clipped
                            (tile_w (tiffl l) * tile_h (tiffl l) * 4) 0]> (cache (osr w)) /\
              slices w' = slices w ++
                [(fresh (slices w).*1,
                  Block_tile (tile_w (tiffl l) * tile_h (tiffl l) * 4))]
          end
      end.
Proof.
  intros Hmiss Hrange.
  destruct (tile_bytes_in_range _ _ Hrange) as [Eg Eb].
  unfold read_tile, read_tile_body, _openslide_cache_get, g_slice_alloc, g_slice_free,
    _openslide_cache_put, _openslide_cache_entry_unref.
  exec. rewrite Hmiss. exec. rewrite Eg, Eb.
  destruct (_openslide_tiff_read_tile h (tiffl l) col row) as [decoded|e]; exec.
  - destruct (_openslide_tiff_clip_tile h (tiffl l) decoded col row) as [clipped|e]; exec.
    + eexists _, _. split; [reflexivity|]. simpl.
      eexists. rewrite <- app_assoc. split; [reflexivity|].
      repeat split. rewrite alter_insert_eq. reflexivity.
    + eexists _, _. split; [reflexivity|]. simpl.
      eexists. rewrite <- !app_assoc. split; [reflexivity|].
      repeat split. apply alloc_then_free.
  - eexists _, _. split; [reflexivity|]. simpl.
    eexists. rewrite <- !app_assoc. split; [reflexivity|].
    repeat split. apply alloc_then_free.
Qed.

Lemma read_tile_miss_witness :
  exists b w',
    read_tile (sample_host two_level_slide) sample_level 0 0 initial_world = (Some b, w') /\
    exists later,
      log w' = log initial_world ++
        Ev_slice_alloc (fresh (slices initial_world).*1) (Block_tile (256 * 256 * 4)) :: later /\
      b = true /\ err w' = err initial_world /\
      cache (osr w') =
        <[(1, 0, 0) := mkEntry (fresh (slices initial_world).*1) [1; 2; 3; 4]
                               (256 * 256 * 4) 0]> (cache (osr initial_world)) /\
      slices w' = slices initial_world ++
        [(fresh (slices initial_world).*1, Block_tile (256 * 256 * 4))].
Proof.
  apply (read_tile_miss (sample_host two_level_slide) sample_level 0 0 initial_world).
  - reflexivity.
  - simpl. lia.
Defined.

(** A tile the host cannot decode: the call fails with the host's error
    and neither the cache nor the live blocks change. *)
Example read_tile_decode_failure :
  exists w',
    read_tile (sample_host two_level_slide) sample_level 1 0 initial_world = (Some false, w') /\
    err w' = Some host_failure /\ osr w' = osr initial_world /\
    slices w' = slices initial_world.
Proof. eexists. vm_compute. auto. Qed.

(** X2: on a cache hit [read_tile] paints the cached buffer and returns
    [true]; it allocates nothing, calls neither the decoder nor the clipper
    (the result does not depend on them), and gives back the reference it
    took, so the cache is what it was. *)
Theorem read_tile_hit h l col row w e :
  cache (osr w) !! (level_addr l, col, row) = Some e ->
  exists w',
    read_tile h l col row w = (Some true, w') /\
    cache (osr w') = cache (osr w) /\
    slices w' = slices w /\ err w' = err w /\
    log w' = log w ++
      [Ev_paint (entry_pixels e) (int32 (tile_w (tiffl l))) (int32 (tile_h (tiffl l)))
                (int32 (int64 (tile_w (tiffl l) * 4)))].
Proof.
  intros Hhit.
  unfold read_tile, read_tile_body, _openslide_cache_get, _openslide_cache_entry_unref.
  exec. rewrite Hhit. exec.
  eexists. split; [reflexivity|]. simpl. repeat split.
  rewrite alter_insert_eq. simpl.
  replace (entry_refs e + 1 - 1) with (entry_refs e) by lia.
  apply insert_id. rewrite Hhit. destruct e; reflexivity.
Qed.

Lemma read_tile_hit_witness :
  exists w',
    read_tile (sample_host two_level_slide) sample_level 0 0
      (set_osr (set_cache {[(1, 0, 0) := mkEntry 7 [9; 9] 262144 0]} empty_osr) initial_world)
      = (Some true, w') /\
    cache (osr w') = {[(1, 0, 0) := mkEntry 7 [9; 9] 262144 0]} /\
    slices w' = [] /\ err w' = None /\
    log w' = [] ++ [Ev_paint [9; 9] (int32 256) (int32 256) (int32 (int64 (256 * 4)))].
Proof.
  exact (read_tile_hit (sample_host two_level_slide) sample_level 0 0
           (set_osr (set_cache {[(1, 0, 0) := mkEntry 7 [9; 9] 262144 0]} empty_osr)
                    initial_world)
           (mkEntry 7 [9; 9] 262144 0) eq_refl).
Defined.

(** ** One directory of the scan *)

(** Case analysis on a test of the code whose own value is not yet known. *)
Ltac case_step :=
  match goal with
  | |- context [match ?x with _ => _ end] =>
      lazymatch x with
      | context [match _ with _ => _ end] => fail
      | _ => destruct x eqn:?
      end
  end.

Ltac exec_open :=
  unfold huron_open_directory, GET_FIELD_OR_FAIL, _openslide_tiff_add_associated_image,
    g_ptr_array_add, g_slice_alloc, g_slice_free, _openslide_grid_create_simple;
  exec.

Lemma scanning_set_err w0 w arr e : scanning w0 w arr -> scanning w0 (set_err e w) arr.
Proof. intros []. constructor; assumption. Qed.

Lemma elem_of_log_snoc (l : list event) (e : event) a b :
  scan_event e ->
  Ev_init_properties_and_hash a b ∈ l ++ [e] -> Ev_init_properties_and_hash a b ∈ l.
Proof.
  intros He Hin. apply elem_of_app in Hin as [Hin|Hin]; [exact Hin|].
  apply list_elem_of_singleton in Hin. subst e. destruct He.
Qed.

Lemma scanning_add_log w0 w arr e :
  scan_event e -> scanning w0 w arr -> scanning w0 (add_log e w) arr.
Proof.
  intros He []. constructor; try assumption.
  simpl. intros a b Hin. eauto using elem_of_log_snoc.
Qed.

Lemma scanning_associated w0 w arr a :
  scanning w0 w arr -> scanning w0 (set_osr (set_associated_images a (osr w)) w) arr.
Proof. intros []. constructor; assumption. Qed.

Lemma scanning_alloc_free w0 w arr e :
  scanning w0 w arr ->
  scanning w0
    (add_log (Ev_slice_free (fresh (slices w).*1) Block_level)
       (set_slices
          (filter (fun p => p.1 <> fresh (slices w).*1)
                  (slices w ++ [(fresh (slices w).*1, Block_level)]))
          (set_err e
             (add_log (Ev_slice_alloc (fresh (slices w).*1) Block_level)
                (set_slices (slices w ++ [(fresh (slices w).*1, Block_level)]) w)))))
    arr.
Proof.
  intros []. constructor; simpl; try assumption.
  - rewrite alloc_then_free. assumption.
  - intros a b Hin. apply scan_log0.
    eapply elem_of_log_snoc; [|eapply elem_of_log_snoc; [|exact Hin]]; exact I.
Qed.

Lemma scanning_add_level w0 w arr t :
  scanning w0 w arr ->
  scanning w0
    (set_level_array
       (Some (arr ++ [mkLevel (fresh (slices w).*1) t (fresh (grid_addr <$> grids w))]))
       (set_grids
          (grids w ++ [mkGrid (fresh (grid_addr <$> grids w)) (tiles_across t) (tiles_down t)
                              (tile_w t) (tile_h t)])
          (add_log (Ev_slice_alloc (fresh (slices w).*1) Block_level)
             (set_slices (slices w ++ [(fresh (slices w).*1, Block_level)]) w))))
    (arr ++ [mkLevel (fresh (slices w).*1) t (fresh (grid_addr <$> grids w))]).
Proof.
  intros []. constructor; simpl; try assumption.
  - reflexivity.
  - generalize (fresh (slices w).*1). intros a.
    rewrite scan_slices0, fmap_app, app_assoc. reflexivity.
  - generalize (fresh (grid_addr <$> grids w)). intros a.
    rewrite scan_grids0, fmap_app, app_assoc. reflexivity.
  - apply Forall_app. split; [assumption|]. constructor; [|constructor]. simpl.
    intros Hin. apply (fresh_not_elem (slices w).*1).
    rewrite scan_slices0 at 2. rewrite fmap_app. apply elem_of_app. left. exact Hin.
  - apply Forall_app. split; [assumption|]. constructor; [|constructor]. simpl.
    intros Hin. apply (fresh_not_elem (grid_addr <$> grids w)).
    rewrite scan_grids0 at 2. rewrite fmap_app. apply elem_of_app. left. exact Hin.
  - intros a b Hin. apply scan_log0. eapply elem_of_log_snoc; [|exact Hin]. exact I.
Qed.

(** The body of the loop keeps the state of the scan, adds at most one
    level, and ends in one of three ways: at its end, by [continue], or by
    [goto FAIL] with the error set. *)
Lemma huron_open_directory_scanning h tiff d w0 w arr :
  scanning w0 w arr ->
  exists r w' arr',
    huron_open_directory h tiff d w = (r, w') /\
    scanning w0 w' arr' /\
    (r = Next tt \/ r = Leave CONTINUE \/ (r = Leave FAIL /\ is_Some (err w'))) /\
    (arr' = arr \/ exists l, arr' = arr ++ [l]).
Proof.
  intros Hs. pose proof (scan_array _ _ _ Hs) as Ha.
  exec_open. rewrite ?Ha.
  repeat (case_step; exec; rewrite ?Ha);
    eexists _, _, _; (split; [reflexivity|]);
    (split;
     [ first [ exact Hs
             | apply scanning_set_err; exact Hs
             | apply scanning_add_log; [exact I | exact Hs]
             | apply scanning_associated; exact Hs
             | apply scanning_alloc_free; exact Hs
             | apply scanning_add_level; exact Hs ]
     | split; [simpl; eauto | first [left; reflexivity | right; eexists; reflexivity]] ]).
Qed.

Lemma undecodable_fails h tiff d w :
  undecodable h tiff ->
  exists w', huron_open_directory h tiff d w = (Leave FAIL, w') /\
    exists format args, err w' = Some (mkGError OPENSLIDE_ERROR_FAILED format args).
Proof.
  intros ([s Hs] & Ht & Hc). exec_open. rewrite Hs, Ht. exec.
  destruct (TIFFGetField_uint16 tiff TIFFTAG_COMPRESSION) as [c|]; exec.
  - rewrite Hc. exec. eauto.
  - eauto.
Qed.

Lemma lacks_dimension_fails h tiff d w :
  lacks_dimension tiff ->
  exists w', huron_open_directory h tiff d w = (Leave FAIL, w') /\
    exists tag,
      err w' = Some (mkGError OPENSLIDE_ERROR_FAILED "Cannot get required TIFF tag: %d" [tag]) /\
      TIFFGetField_uint32 tiff tag = None /\
      (tag = TIFFTAG_IMAGEWIDTH \/ tag = TIFFTAG_IMAGELENGTH \/ tag = TIFFTAG_ROWSPERSTRIP).
Proof.
  intros ([s Hs] & Ht & Hd). exec_open. rewrite Hs, Ht. exec.
  destruct (TIFFGetField_uint32 tiff TIFFTAG_IMAGEWIDTH) as [iw|] eqn:Ew; exec;
    [|eexists; split; [reflexivity|]; eauto 6].
  destruct (TIFFGetField_uint32 tiff TIFFTAG_IMAGELENGTH) as [ih|] eqn:Eh; exec;
    [|eexists; split; [reflexivity|]; eauto 6].
  destruct (TIFFGetField_uint32 tiff TIFFTAG_ROWSPERSTRIP) as [ir|] eqn:Er; exec;
    [|eexists; split; [reflexivity|]; eauto 6].
  destruct Hd as [Hd|[Hd|Hd]]; discriminate.
Qed.

(** ** The loop *)

Lemma huron_open_loop_eq h tiff d rest w :
  huron_open_loop h tiff d rest w =
    match huron_open_directory h tiff d w with
    | (Next _, w') | (Leave CONTINUE, w') =>
        match rest with
        | [] => (Next tt, w')
        | tiff' :: rest' => huron_open_loop h tiff' (d + 1) rest' w'
        end
    | (Leave j, w') => (Leave j, w')
    end.
Proof. destruct rest; reflexivity. Qed.

(** The loop keeps the state of the scan, adds at most one level for each
    directory, and is left at its end or by [goto FAIL]. *)
Lemma huron_open_loop_scanning h rest :
  forall tiff d w0 w arr,
    scanning w0 w arr ->
    exists r w' arr',
      huron_open_loop h tiff d rest w = (r, w') /\
      scanning w0 w' arr' /\
      (r = Next tt \/ (r = Leave FAIL /\ is_Some (err w'))) /\
      (length arr' <= length arr + S (length rest))%nat.
Proof.
  induction rest as [|tiff' rest IH]; intros tiff d w0 w arr Hs;
    rewrite huron_open_loop_eq;
    destruct (huron_open_directory_scanning h tiff d w0 w arr Hs)
      as (r & w' & arr' & -> & Hs' & Hr & Harr);
    assert (Hlen : (length arr' <= length arr + 1)%nat)
      by (destruct Harr as [->|[l ->]]; rewrite ?length_app; simpl; lia).
  - destruct Hr as [->|[->|[-> He]]]; eexists _, _, _;
      (split; [reflexivity|]); (split; [exact Hs'|]); split; eauto; simpl; lia.
  - destruct Hr as [->|[->|[-> He]]].
    + destruct (IH tiff' (d + 1) w0 w' arr' Hs') as (r & w'' & arr'' & E & Hs'' & Hr & Hl).
      eexists _, _, _. split; [exact E|]. split; [exact Hs''|]. split; [exact Hr|].
      simpl. lia.
    + destruct (IH tiff' (d + 1) w0 w' arr' Hs') as (r & w'' & arr'' & E & Hs'' & Hr & Hl).
      eexists _, _, _. split; [exact E|]. split; [exact Hs''|]. split; [exact Hr|].
      simpl. lia.
    + eexists _, _, _. split; [reflexivity|]. split; [exact Hs'|]. split; eauto.
      simpl. lia.
Qed.

(** A directory on which the body jumps to [FAIL] ends the loop there or
    earlier, with that jump. *)
Lemma huron_open_loop_fails (P : directory -> Prop) h :
  (forall tiff d w, P tiff -> exists w', huron_open_directory h tiff d w = (Leave FAIL, w')) ->
  forall rest tiff d w0 w arr,
    scanning w0 w arr ->
    Exists P (tiff :: rest) ->
    exists w', huron_open_loop h tiff d rest w = (Leave FAIL, w').
Proof.
  intros HP. induction rest as [|tiff' rest IH]; intros tiff d w0 w arr Hs Hex;
    rewrite huron_open_loop_eq;
    apply Exists_cons in Hex as [Hhere|Hlater].
  - destruct (HP tiff d w Hhere) as [w' ->]. eauto.
  - inversion Hlater.
  - destruct (HP tiff d w Hhere) as [w' ->]. eauto.
  - destruct (huron_open_directory_scanning h tiff d w0 w arr Hs)
      as (r & w' & arr' & -> & Hs' & Hr & _).
    destruct Hr as [->|[->|[-> He]]]; eauto.
Qed.

(** ** The resolution property *)

Lemma set_properties_same w :
  set_osr (set_properties (properties (osr w)) (osr w)) w = w.
Proof. destruct w as [? [] ? ? ? ? ?]. reflexivity. Qed.

Lemma huron_set_resolution_prop_eq h tl d tag name w :
  (huron_set_resolution_prop h tl d tag name w).2 =
    set_osr (set_properties (resolution_prop h tl d tag name (properties (osr w))) (osr w)) w.
Proof.
  unfold huron_set_resolution_prop, resolution_prop. exec.
  destruct (_openslide_tifflike_get_uint tl d TIFFTAG_RESOLUTIONUNIT) as [u|e]; exec.
  - destruct (_openslide_tifflike_get_float tl d tag) as [res|e]; exec;
      [destruct (u =? RESUNIT_CENTIMETER); exec|];
      rewrite ?set_properties_same; reflexivity.
  - destruct (g_error_matches e OPENSLIDE_ERROR_NO_VALUE); exec;
      [destruct (_openslide_tifflike_get_float tl d tag) as [res|e']; exec|];
      rewrite ?set_properties_same; reflexivity.
Qed.

Lemma huron_set_props_eq h tl d w :
  huron_set_props h tl d w =
    (Next tt,
     set_osr (set_properties
                (resolution_prop h tl d TIFFTAG_XRESOLUTION OPENSLIDE_PROPERTY_NAME_MPP_X
                                 (properties (osr w)))
                (osr w)) w).
Proof.
  unfold huron_set_props, call. rewrite huron_set_resolution_prop_eq. reflexivity.
Qed.

(** ** The statements under FAIL *)

Lemma free_levels_spec (arr : list level) :
  forall w, exists w',
    foldr (fun l (k : stmt jump unit) =>
             _openslide_grid_destroy (grid l);;
             g_slice_free Block_level (level_addr l);;
             k)
          (mret tt) arr w = (Next tt, w') /\
    slices w' = filter (fun p => p.1 ∉ level_addr <$> arr) (slices w) /\
    grids w' = filter (fun g => grid_addr g ∉ grid <$> arr) (grids w) /\
    err w' = err w /\ osr w' = osr w /\ tc w' = tc w /\ level_array w' = level_array w /\
    (forall a b, Ev_init_properties_and_hash a b ∈ log w' ->
                 Ev_init_properties_and_hash a b ∈ log w).
Proof.
  induction arr as [|l arr IH]; intros w.
  - eexists. split; [reflexivity|]. simpl.
    repeat split; try (symmetry; apply filter_all; intros x _ Hin; inversion Hin).
    auto.
  - revert IH. simpl. unfold _openslide_grid_destroy, g_slice_free. exec. intros IH.
    match goal with
    | |- context [foldr _ _ arr ?w2] =>
        destruct (IH w2) as (w' & E & Hs & Hg & He & Ho & Ht & Ha & Hl)
    end.
    rewrite E. eexists. split; [reflexivity|].
    rewrite Hs, Hg, He, Ho, Ht, Ha. simpl.
    repeat split.
    + rewrite list_filter_filter. apply list_filter_iff. intros p.
      rewrite not_elem_of_cons. tauto.
    + rewrite list_filter_filter. apply list_filter_iff. intros g.
      rewrite not_elem_of_cons. tauto.
    + intros a b Hin. apply Hl in Hin. simpl in Hin.
      eapply elem_of_log_snoc; [|exact Hin]. exact I.
Qed.

(** The statements under [FAIL] end in [return false]; they keep the
    error and the image object, and destroy the tiffcache. *)
Lemma huron_open_FAIL_returns w :
  exists w',
    huron_open_FAIL w = (Leave (RETURN false), w') /\
    level_array w' = None /\ tc w' = TC_destroyed /\ err w' = err w /\ osr w' = osr w /\
    (forall a b, Ev_init_properties_and_hash a b ∈ log w' ->
                 Ev_init_properties_and_hash a b ∈ log w) /\
    match level_array w with
    | Some arr =>
        slices w' = filter (fun p => p.1 ∉ level_addr <$> arr) (slices w) /\
        grids w' = filter (fun g => grid_addr g ∉ grid <$> arr) (grids w)
    | None => slices w' = slices w /\ grids w' = grids w
    end.
Proof.
  destruct (level_array w) as [arr|] eqn:Ha.
  - pose proof (free_levels_spec arr w) as F. revert F.
    unfold huron_open_FAIL, _openslide_tiffcache_put, _openslide_tiffcache_destroy.
    exec. rewrite Ha. intros (w1 & E & Hs1 & Hg1 & He1 & Ho1 & Ht1 & Ha1 & Hl1).
    rewrite E. exec.
    destruct (tc w1) eqn:Etc; exec;
      (eexists; split; [reflexivity|]; simpl; rewrite Hs1, Hg1, He1, Ho1; auto 10).
  - unfold huron_open_FAIL, _openslide_tiffcache_put, _openslide_tiffcache_destroy.
    exec. rewrite Ha. exec.
    destruct (tc w) eqn:Etc; exec; (eexists; split; [reflexivity|]; simpl; auto 10).
Qed.

(** The statements under [FAIL] release the blocks and grids of the array,
    whatever its order. *)
Lemma huron_open_FAIL_releases w s0 g0 arr arr' :
  level_array w = Some arr' ->
  arr' ≡ₚ arr ->
  slices w = s0 ++ (level_block <$> arr) ->
  grids w = g0 ++ (level_grid <$> arr) ->
  Forall (fun l => level_addr l ∉ s0.*1) arr ->
  Forall (fun l => grid l ∉ grid_addr <$> g0) arr ->
  exists w',
    huron_open_FAIL w = (Leave (RETURN false), w') /\
    level_array w' = None /\ slices w' = s0 /\ grids w' = g0 /\
    tc w' = TC_destroyed /\ err w' = err w /\ osr w' = osr w.
Proof.
  intros Ha Hperm Hs Hg Hfs Hfg.
  destruct (huron_open_FAIL_returns w) as (w' & E & Ha' & Ht & He & Ho & _ & Hrel).
  rewrite Ha in Hrel. destruct Hrel as [Hs1 Hg1].
  exists w'. split; [exact E|]. split; [exact Ha'|].
  split; [|split; [|auto]].
  - rewrite Hs1, Hs, filter_app, filter_all, filter_none; [apply app_nil_r| |].
    + intros p Hp Hnot. apply Hnot.
      apply list_elem_of_fmap in Hp as (l & -> & Hl). simpl.
      apply list_elem_of_fmap_2. rewrite Hperm. exact Hl.
    + intros p Hp Hin. apply list_elem_of_fmap in Hin as (l & Hpl & Hl).
      rewrite Hperm in Hl. rewrite Forall_forall in Hfs.
      apply (Hfs l Hl). rewrite <- Hpl. apply list_elem_of_fmap_2. exact Hp.
  - rewrite Hg1, Hg, filter_app, filter_all, filter_none; [apply app_nil_r| |].
    + intros g Hin Hnot. apply Hnot.
      apply list_elem_of_fmap in Hin as (l & -> & Hl). simpl.
      apply list_elem_of_fmap_2. rewrite Hperm. exact Hl.
    + intros g Hin' Hin. apply list_elem_of_fmap in Hin as (l & Hpl & Hl).
      rewrite Hperm in Hl. rewrite Forall_forall in Hfg.
      apply (Hfg l Hl). rewrite <- Hpl. apply list_elem_of_fmap_2. exact Hin'.
Qed.

(** ** Entering and leaving the loop *)

Lemma huron_open_scan_eq h filename w :
  huron_open_scan h filename w =
    match tiffcache_open h filename with
    | Ok file => scanned h file w
    | Error e =>
        (Leave FAIL, set_err (Some e) (set_tc (TC_live false) (set_level_array (Some []) w)))
    end.
Proof.
  unfold huron_open_scan, scanned, scan_start, _openslide_tiffcache_create,
    _openslide_tiffcache_get.
  exec. destruct (tiffcache_open h filename) as [file|e]; exec; reflexivity.
Qed.

Lemma scanning_start w : scanning (scan_start w) (scan_start w) [].
Proof.
  constructor; simpl; auto.
  - symmetry. apply app_nil_r.
  - symmetry. apply app_nil_r.
Qed.

(** The loop on an opened file ends at its end or by [goto FAIL], in a
    state of the scan. *)
Lemma scanned_scanning h file w :
  exists r w1 arr,
    scanned h file w = (r, w1) /\
    scanning (scan_start w) w1 arr /\
    (r = Next tt \/ (r = Leave FAIL /\ is_Some (err w1))) /\
    (length arr <= S (length file.2))%nat.
Proof.
  unfold scanned.
  destruct (huron_open_loop_scanning h file.2 file.1 0 _ _ _ (scanning_start w))
    as (r & w1 & arr & E & Hs & Hr & Hl).
  eauto 10.
Qed.

(** What the statements after the loop do with the array [arr]. *)
Lemma huron_open_finish_cases h tl w1 arr :
  level_array w1 = Some arr ->
  exists r w',
    huron_open_finish h tl w1 = (r, w') /\
    match top_of (g_ptr_array_sort h width_compare arr) with
    | None => r = Leave (CRASH Out_of_bounds_read) /\ log w' = log w1
    | Some top =>
        (exists later,
            log w' = log w1 ++ Ev_init_properties_and_hash (dir (tiffl top)) 0 :: later /\
            Forall scan_event later) /\
        match init_properties_and_hash h tl (properties (osr w1)) (dir (tiffl top)) 0 with
        | Error e =>
            r = Leave FAIL /\ err w' = Some e /\
            level_array w' = Some (g_ptr_array_sort h width_compare arr) /\
            slices w' = slices w1 /\ grids w' = grids w1 /\ tc w' = tc w1 /\ osr w' = osr w1
        | Ok props =>
            (r = Leave (RETURN true) \/ r = Leave (CRASH Assertion_failed)) /\
            (data (osr w1) = None -> levels (osr w1) = None -> r = Leave (RETURN true)) /\
            (r = Leave (RETURN true) ->
             levels (osr w') = Some (g_ptr_array_sort h width_compare arr) /\
             properties (osr w') =
               resolution_prop h tl 0 TIFFTAG_XRESOLUTION OPENSLIDE_PROPERTY_NAME_MPP_X props /\
             associated_images (osr w') = associated_images (osr w1) /\
             ops (osr w') = true /\
             level_array w' = None /\ err w' = err w1 /\ grids w' = grids w1)
        end
    end.
Proof.
  intros Ha.
  unfold huron_open_finish, _openslide_tifflike_init_properties_and_hash, pdata, top_of,
    g_assert, g_slice_alloc, _openslide_tiffcache_put.
  exec. rewrite Ha. exec.
  repeat (case_step; exec; rewrite ?huron_set_props_eq).
  all: eexists _, _; (split; [reflexivity|]);
    rewrite ?huron_set_resolution_prop_eq; simpl.
  all: repeat match goal with
       | |- _ /\ _ => split
       | |- exists later, _ => eexists; rewrite <- ?app_assoc
       | |- Forall _ _ => repeat constructor
       | |- _ \/ _ => first [left; reflexivity | right; reflexivity]
       | |- _ = _ => reflexivity
       | |- _ -> _ => intros
       | H : Leave _ = Leave _ |- _ => discriminate H
       | H : data _ = None, H' : negb (bool_of_option (data _)) = false |- _ =>
           rewrite H in H'; discriminate H'
       | H : levels _ = None, H' : negb (bool_of_option (levels _)) = false |- _ =>
           rewrite H in H'; discriminate H'
       end.
Qed.

(** ** Sorting by width *)

Lemma width_compare_le (la lb : level) :
  width_compare la lb <= 0 <-> image_w (tiffl lb) <= image_w (tiffl la).
Proof.
  unfold width_compare.
  destruct (image_w (tiffl la) >? image_w (tiffl lb)) eqn:E1;
    [|destruct (image_w (tiffl la) =? image_w (tiffl lb)) eqn:E2]; lia.
Qed.

Lemma width_compare_comparator : comparator width_compare.
Proof.
  split.
  - intros a b. rewrite !width_compare_le. lia.
  - intros a b c. rewrite !width_compare_le. lia.
Qed.

Lemma insert_by_perm {A} (cmp : A -> A -> Z) (x : A) (l : list A) :
  insert_by cmp x l ≡ₚ x :: l.
Proof.
  induction l as [|y l IH]; simpl; [reflexivity|].
  destruct (cmp x y <=? 0); [reflexivity|].
  rewrite IH. apply Permutation_swap.
Qed.

Lemma insertion_sort_perm {A} (cmp : A -> A -> Z) (l : list A) :
  insertion_sort cmp l ≡ₚ l.
Proof.
  induction l as [|x l IH]; simpl; [reflexivity|].
  rewrite insert_by_perm, IH. reflexivity.
Qed.

Lemma insert_by_sorted {A} (cmp : A -> A -> Z) (x : A) (l : list A) :
  comparator cmp ->
  StronglySorted (fun a b => cmp a b <= 0) l ->
  StronglySorted (fun a b => cmp a b <= 0) (insert_by cmp x l).
Proof.
  intros [Htotal Htrans]. induction l as [|y l IH]; intros Hsorted; simpl.
  - repeat constructor.
  - apply StronglySorted_inv in Hsorted as [Hl Hy].
    destruct (cmp x y <=? 0) eqn:E.
    + apply Z.leb_le in E. constructor; [constructor; assumption|].
      constructor; [exact E|].
      eapply Forall_impl; [exact Hy|]. intros z Hz. simpl in Hz. eauto.
    + apply Z.leb_gt in E. constructor; [auto|].
      assert (Hyx : cmp y x <= 0) by (destruct (Htotal x y); [lia|assumption]).
      rewrite insert_by_perm. constructor; assumption.
Qed.

Lemma insertion_sort_sorted {A} (cmp : A -> A -> Z) (l : list A) :
  comparator cmp -> StronglySorted (fun a b => cmp a b <= 0) (insertion_sort cmp l).
Proof.
  intros Hc. induction l as [|x l IH]; simpl; [constructor|].
  apply insert_by_sorted; assumption.
Qed.

Lemma insertion_sort_conforms : sort_conforms insertion_sort.
Proof.
  intros cmp l Hc. split; [apply insertion_sort_perm | apply insertion_sort_sorted, Hc].
Qed.

(** Another conforming sort, which leaves ties in the opposite order. *)
Lemma insertion_sort_rev_conforms :
  sort_conforms (fun cmp l => insertion_sort cmp (rev l)).
Proof.
  intros cmp l Hc. split.
  - rewrite insertion_sort_perm. symmetry. apply Permutation_rev.
  - apply insertion_sort_sorted, Hc.
Qed.

Lemma sorted_by_width srt (arr : list level) :
  sort_conforms srt ->
  srt width_compare arr ≡ₚ arr /\
  StronglySorted (fun a b => image_w (tiffl b) <= image_w (tiffl a)) (srt width_compare arr).
Proof.
  intros Hc. destruct (Hc width_compare arr width_compare_comparator) as [Hp Hs].
  split; [exact Hp|]. clear Hp.
  induction Hs as [|a l Hs IH Hall]; constructor; [exact IH|].
  eapply Forall_impl; [exact Hall|]. intros b Hb. simpl in Hb.
  apply width_compare_le. exact Hb.
Qed.

(** In a list sorted by width the first element is the widest and the last
    the narrowest. *)
Lemma sorted_head_widest (ls : list level) first :
  StronglySorted (fun a b => image_w (tiffl b) <= image_w (tiffl a)) ls ->
  head ls = Some first ->
  forall l, l ∈ ls -> image_w (tiffl l) <= image_w (tiffl first).
Proof.
  intros Hs Hh l Hl. destruct ls as [|x ls]; [discriminate|].
  simpl in Hh. injection Hh as ->.
  apply StronglySorted_inv in Hs as [_ Hall].
  apply elem_of_cons in Hl as [->|Hl]; [lia|].
  rewrite Forall_forall in Hall. auto.
Qed.

Lemma sorted_last_narrowest (ls : list level) top :
  StronglySorted (fun a b => image_w (tiffl b) <= image_w (tiffl a)) ls ->
  last ls = Some top ->
  forall l, l ∈ ls -> image_w (tiffl top) <= image_w (tiffl l).
Proof.
  intros Hs Hlast l Hl. apply last_Some in Hlast as [ls' ->].
  apply elem_of_app in Hl as [Hl|Hl].
  - apply StronglySorted_app_1_elem_of with (x1 := l) (x2 := top) in Hs;
      [exact Hs | exact Hl | left].
  - apply list_elem_of_singleton in Hl. subst l. lia.
Qed.

(** ** The element read as the last of the array *)

Lemma top_of_nil : top_of [] = None.
Proof. reflexivity. Qed.

Lemma top_of_Some (arr : list level) top : top_of arr = Some top -> arr <> [].
Proof. intros H ->. discriminate H. Qed.

Lemma top_of_last (arr : list level) :
  arr <> [] -> Z.of_nat (length arr) <= 2 ^ 32 -> top_of arr = last arr.
Proof.
  intros Hne Hlen. unfold top_of.
  assert (Hpos : 0 < Z.of_nat (length arr)) by (destruct arr; [congruence|simpl; lia]).
  assert (Ei : (Z.of_nat (length arr) mod 2 ^ 32 - 1) mod 2 ^ 32 = Z.of_nat (length arr) - 1).
  { destruct (Z.eq_dec (Z.of_nat (length arr)) (2 ^ 32)) as [E|E].
    - rewrite E. reflexivity.
    - rewrite (Z.mod_small (Z.of_nat (length arr))) by lia.
      apply Z.mod_small. lia. }
  rewrite Ei.
  replace ((0 <=? Z.of_nat (length arr) - 1) && (Z.of_nat (length arr) - 1 <? Z.of_nat (length arr)))
    with true by (symmetry; apply andb_true_iff; split; [apply Z.leb_le|apply Z.ltb_lt]; lia).
  rewrite last_lookup. f_equal. lia.
Qed.

(** ** The whole of huron_open *)

Lemma huron_open_eq h filename tl w :
  huron_open h filename tl w =
    match tiffcache_open h filename with
    | Error e =>
        huron_open_FAIL
          (set_err (Some e) (set_tc (TC_live false) (set_level_array (Some []) w)))
    | Ok file =>
        match scanned h file w with
        | (Next _, w1) =>
            match huron_open_finish h tl w1 with
            | (Leave FAIL, w2) => huron_open_FAIL w2
            | r => r
            end
        | (Leave FAIL, w1) => huron_open_FAIL w1
        | (Leave j, w1) => (Leave j, w1)
        end
    end.
Proof.
  unfold huron_open. exec. rewrite huron_open_scan_eq.
  destruct (tiffcache_open h filename) as [file|e]; [|reflexivity].
  destruct (scanned h file w) as [[[]|[]] w1]; reflexivity.
Qed.

(** A successful open has opened the file, left the loop at its end and
    run the statements after it to [return true]. *)
Lemma huron_open_success h filename tl w w' :
  huron_open h filename tl w = (Leave (RETURN true), w') ->
  exists file w1 arr,
    tiffcache_open h filename = Ok file /\
    scanned h file w = (Next tt, w1) /\
    scanning (scan_start w) w1 arr /\
    huron_open_finish h tl w1 = (Leave (RETURN true), w').
Proof.
  rewrite huron_open_eq.
  destruct (tiffcache_open h filename) as [file|e].
  - destruct (scanned_scanning h file w) as (r & w1 & arr & E & Hs & Hr & _).
    rewrite E. destruct Hr as [->|[-> _]].
    + destruct (huron_open_finish h tl w1) as [[[]|j] w2] eqn:Ef.
      * discriminate.
      * destruct j; intros H; try discriminate H.
        -- destruct (huron_open_FAIL_returns w2) as (w3 & E3 & _).
           rewrite E3 in H. discriminate H.
        -- injection H as -> ->. eauto 10.
    + destruct (huron_open_FAIL_returns w1) as (w3 & E3 & _). rewrite E3. discriminate.
  - match goal with
    | |- huron_open_FAIL ?x = _ -> _ =>
        destruct (huron_open_FAIL_returns x) as (w3 & E3 & _); rewrite E3; discriminate
    end.
Qed.

(** X1: when the loop ends with no level in the array, the read of
    [pdata[len - 1]] is out of bounds: the open neither succeeds nor
    fails. *)
Theorem huron_open_zero_levels h filename tl w file w1 :
  sort_conforms (g_ptr_array_sort h) ->
  tiffcache_open h filename = Ok file ->
  scanned h file w = (Next tt, w1) ->
  level_array w1 = Some [] ->
  (huron_open h filename tl w).1 = Leave (CRASH Out_of_bounds_read).
Proof.
  intros Hc Hf Hscan Ha. rewrite huron_open_eq, Hf, Hscan.
  destruct (huron_open_finish_cases h tl w1 [] Ha) as (r & w' & E & Hcase).
  destruct (sorted_by_width _ [] Hc) as [Hp _].
  apply Permutation_nil_r in Hp. rewrite Hp, top_of_nil in Hcase.
  destruct Hcase as [-> _]. rewrite E. reflexivity.
Qed.

Lemma huron_open_zero_levels_witness :
  (huron_open (sample_host untagged_slide) "slide.tif" resolution_in_directory_0
              initial_world).1 = Leave (CRASH Out_of_bounds_read).
Proof.
  apply (huron_open_zero_levels (sample_host untagged_slide) "slide.tif"
           resolution_in_directory_0 initial_world untagged_slide
           (scanned (sample_host untagged_slide) untagged_slide initial_world).2).
  - apply insertion_sort_conforms.
  - reflexivity.
  - vm_compute. reflexivity.
  - vm_compute. reflexivity.
Defined.

(** C1 (the code departs from it): on a slide that [huron_detect] accepts
    and whose only directory has no subfiletype tag, the loop collects no
    level and [huron_open] reads [pdata[4294967295]] of an empty array
    instead of returning [false]. *)
Theorem huron_open_no_levels_crash :
  (huron_detect "slide.tif" (Some (sample_tifflike [] [])) initial_world).1 = Some true /\
  (scanned (sample_host untagged_slide) untagged_slide initial_world).1 = Next tt /\
  level_array (scanned (sample_host untagged_slide) untagged_slide initial_world).2 = Some [] /\
  (huron_open (sample_host untagged_slide) "slide.tif" (sample_tifflike [] []) initial_world).1
    = Leave (CRASH Out_of_bounds_read).
Proof. vm_compute. auto. Qed.

(** ** The levels a scan collects *)

(** Unless it jumps to [FAIL], the body of the loop appends a level
    exactly on a candidate directory, with the geometry the helper
    computed for it. *)
Lemma huron_open_directory_levels h tiff d w arr :
  level_array w = Some arr ->
  exists r w',
    huron_open_directory h tiff d w = (r, w') /\
    (r = Leave FAIL \/
     (r = Next tt \/ r = Leave CONTINUE) /\
     exists added,
       level_array w' = Some (arr ++ added) /\
       if level_candidate tiff then
         exists l, added = [l] /\ _openslide_tiff_level_init h tiff d = Ok (tiffl l)
       else added = []).
Proof.
  intros Ha. unfold level_candidate. exec_open. rewrite ?Ha.
  destruct (TIFFGetField_uint32 tiff TIFFTAG_SUBFILETYPE) as [s|]; exec;
    [|eexists _, _; split; [reflexivity|]; right; split; [auto|];
      exists []; rewrite app_nil_r; auto].
  destruct (TIFFIsTiled tiff); exec; rewrite ?Ha.
  - repeat (case_step; exec; rewrite ?Ha);
      eexists _, _; (split; [reflexivity|]);
      first [ left; reflexivity
            | right; split; [auto|]; eexists [_]; split; [reflexivity|];
              eexists; split; [reflexivity|reflexivity] ].
  - repeat (case_step; exec; rewrite ?Ha);
      eexists _, _; (split; [reflexivity|]);
      first [ left; reflexivity
            | right; split; [auto|]; exists []; rewrite app_nil_r; auto ].
Qed.

Lemma huron_open_loop_levels h rest :
  forall tiff d w arr,
    level_array w = Some arr ->
    exists r w',
      huron_open_loop h tiff d rest w = (r, w') /\
      (r = Next tt ->
       exists added,
         level_array w' = Some (arr ++ added) /\
         Forall2 (fun l p => _openslide_tiff_level_init h p.2 p.1 = Ok (tiffl l)) added
                 (filter (fun p => level_candidate p.2 = true) (numbered d (tiff :: rest)))).
Proof.
  induction rest as [|tiff' rest IH]; intros tiff d w arr Ha;
    rewrite huron_open_loop_eq;
    destruct (huron_open_directory_levels h tiff d w arr Ha)
      as (r & w1 & -> & [-> | [Hr (added & Ha1 & Hadded)]]).
  - eexists _, _. split; [reflexivity|]. discriminate.
  - assert (Hloop : (let (f, w') := (r, w1) in
                     match f with
                     | Next _ | Leave CONTINUE => (Next tt, w')
                     | Leave j => (Leave j, w')
                     end) = (Next tt, w1)) by (destruct Hr as [-> | ->]; reflexivity).
    rewrite Hloop. eexists _, _. split; [reflexivity|]. intros _.
    exists added. split; [exact Ha1|]. simpl.
    destruct (level_candidate tiff) eqn:Ec.
    + destruct Hadded as (l & -> & Hl).
      rewrite filter_cons_True by exact Ec. repeat constructor. exact Hl.
    + subst added. rewrite filter_cons_False by (simpl; congruence). constructor.
  - eexists _, _. split; [reflexivity|]. discriminate.
  - destruct (IH tiff' (d + 1) w1 (arr ++ added) Ha1) as (r2 & w2 & E2 & H2).
    assert (Hloop : (let (f, w') := (r, w1) in
                     match f with
                     | Next _ | Leave CONTINUE => huron_open_loop h tiff' (d + 1) rest w'
                     | Leave j => (Leave j, w')
                     end) = (r2, w2)) by (destruct Hr as [-> | ->]; exact E2).
    rewrite Hloop. eexists _, _. split; [reflexivity|]. intros Hnext.
    destruct (H2 Hnext) as (added2 & Ha2 & Hall2).
    exists (added ++ added2). rewrite app_assoc. split; [exact Ha2|].
    change (numbered d (tiff :: tiff' :: rest))
      with ((d, tiff) :: numbered (d + 1) (tiff' :: rest)).
    destruct (level_candidate tiff) eqn:Ec.
    + destruct Hadded as (l & -> & Hl).
      rewrite filter_cons_True by exact Ec. constructor; assumption.
    + subst added. rewrite filter_cons_False by (simpl; congruence). exact Hall2.
Qed.

(** ** The level list of a successful open *)

(** C5 as the code has it: after a successful open the level list is not
    empty and sorted by image width in non-increasing order (for any sort
    that conforms to GLib's contract, so ties come in whatever order it
    leaves them).  Its first element is the level of a directory of the
    file that is tiled and has a readable subfiletype tag, and it is at
    least as wide as every such directory of the file: each of them has a
    geometry, and its width is at most that of the first level.  A tiled
    directory without the tag is not among them. *)
Theorem huron_open_levels_sorted h filename tl w w' :
  sort_conforms (g_ptr_array_sort h) ->
  huron_open h filename tl w = (Leave (RETURN true), w') ->
  exists file w1 arr ls first,
    tiffcache_open h filename = Ok file /\
    scanned h file w = (Next tt, w1) /\
    level_array w1 = Some arr /\
    levels (osr w') = Some ls /\
    ls ≡ₚ arr /\
    StronglySorted (fun a b => image_w (tiffl b) <= image_w (tiffl a)) ls /\
    head ls = Some first /\
    (forall l, l ∈ arr -> image_w (tiffl l) <= image_w (tiffl first)) /\
    (exists d tiff,
        (d, tiff) ∈ numbered 0 (file.1 :: file.2) /\ level_candidate tiff = true /\
        _openslide_tiff_level_init h tiff d = Ok (tiffl first)) /\
    (forall d tiff,
        (d, tiff) ∈ numbered 0 (file.1 :: file.2) -> level_candidate tiff = true ->
        exists geometry,
          _openslide_tiff_level_init h tiff d = Ok geometry /\
          image_w geometry <= image_w (tiffl first)).
Proof.
  intros Hc Hopen.
  destruct (huron_open_success _ _ _ _ _ Hopen) as (file & w1 & arr & Hf & Hscan & Hs & Hfin).
  pose proof (scan_array _ _ _ Hs) as Ha.
  destruct (huron_open_loop_levels h file.2 file.1 0 (scan_start w) [] eq_refl)
    as (r0 & w0 & E0 & Hnext).
  pose proof Hscan as Hscan'. unfold scanned in Hscan'.
  rewrite Hscan' in E0. injection E0 as <- <-.
  destruct (Hnext eq_refl) as (added & Hadded & Hall). simpl in Hadded.
  rewrite Ha in Hadded. injection Hadded as <-.
  destruct (huron_open_finish_cases h tl w1 arr Ha) as (r & w2 & E & Hcase).
  rewrite Hfin in E. injection E as <- <-.
  destruct (sorted_by_width _ arr Hc) as [Hp Hsorted].
  destruct (top_of (g_ptr_array_sort h width_compare arr)) as [top|] eqn:Etop;
    [|destruct Hcase as [Hcase _]; discriminate Hcase].
  destruct Hcase as [_ Hcase].
  destruct (init_properties_and_hash h tl (properties (osr w1)) (dir (tiffl top)) 0)
    as [props|e]; [|destruct Hcase as [Hcase _]; discriminate Hcase].
  destruct Hcase as (_ & _ & Hok). destruct (Hok eq_refl) as (Hlevels & _).
  apply top_of_Some in Etop.
  destruct (g_ptr_array_sort h width_compare arr) as [|first ls] eqn:Els; [congruence|].
  assert (Hwidest : forall l, l ∈ arr -> image_w (tiffl l) <= image_w (tiffl first)).
  { intros l Hl. apply (sorted_head_widest (first :: ls) first Hsorted eq_refl).
    rewrite Hp. exact Hl. }
  exists file, w1, arr, (first :: ls), first.
  repeat (split; [assumption || reflexivity|]).
  split.
  - assert (Hfirst : first ∈ arr) by (rewrite <- Hp; apply list_elem_of_here).
    apply list_elem_of_lookup_1 in Hfirst as [i Hi].
    destruct (Forall2_lookup_l _ _ _ _ _ Hall Hi) as ([d tiff] & Hp' & Hinit).
    apply list_elem_of_lookup_2, list_elem_of_filter in Hp' as [Hcand Hin].
    exists d, tiff. auto.
  - intros d tiff Hin Hcand.
    assert (Hp' : (d, tiff) ∈ filter (fun p : Z * directory => level_candidate p.2 = true)
                                  (numbered 0 (file.1 :: file.2)))
      by (apply list_elem_of_filter; auto).
    apply list_elem_of_lookup_1 in Hp' as [i Hi].
    destruct (Forall2_lookup_r _ _ _ _ _ Hall Hi) as (l & Hl & Hinit).
    exists (tiffl l). split; [exact Hinit|].
    apply Hwidest. eapply list_elem_of_lookup_2. exact Hl.
Qed.

Lemma huron_open_levels_sorted_witness :
  exists file w1 arr ls first,
    tiffcache_open (sample_host two_level_slide) "slide.tif" = Ok file /\
    scanned (sample_host two_level_slide) file initial_world = (Next tt, w1) /\
    level_array w1 = Some arr /\
    levels (osr (huron_open (sample_host two_level_slide) "slide.tif"
                            resolution_in_directory_0 initial_world).2) = Some ls /\
    ls ≡ₚ arr /\
    StronglySorted (fun a b => image_w (tiffl b) <= image_w (tiffl a)) ls /\
    head ls = Some first /\
    (forall l, l ∈ arr -> image_w (tiffl l) <= image_w (tiffl first)) /\
    (exists d tiff,
        (d, tiff) ∈ numbered 0 (file.1 :: file.2) /\ level_candidate tiff = true /\
        _openslide_tiff_level_init (sample_host two_level_slide) tiff d = Ok (tiffl first)) /\
    (forall d tiff,
        (d, tiff) ∈ numbered 0 (file.1 :: file.2) -> level_candidate tiff = true ->
        exists geometry,
          _openslide_tiff_level_init (sample_host two_level_slide) tiff d = Ok geometry /\
          image_w geometry <= image_w (tiffl first)).
Proof.
  apply (huron_open_levels_sorted (sample_host two_level_slide) "slide.tif"
           resolution_in_directory_0 initial_world).
  - apply insertion_sort_conforms.
  - vm_compute. reflexivity.
Defined.

(** The claim C5 as stated fails: the first level is not the widest level
    present in the file.  The third directory of this slide is tiled, its
    codec is available and its geometry is 8000 wide; it has no
    subfiletype tag, so the open succeeds without it, and the first of the
    two levels is directory 0, 4000 wide. *)
Lemma widest_directory_not_first_level :
  wider_untagged_slide.2 !! 1%nat = Some (tiled_directory None 8000 7) /\
  TIFFIsTiled (tiled_directory None 8000 7) = true /\
  TIFFIsCODECConfigured (sample_host wider_untagged_slide) 7 = true /\
  _openslide_tiff_level_init (sample_host wider_untagged_slide)
                             (tiled_directory None 8000 7) 2
    = Ok (mkTiffLevel 2 8000 8000 256 256 32 32) /\
  (huron_open (sample_host wider_untagged_slide) "slide.tif"
              resolution_in_directory_0 initial_world).1 = Leave (RETURN true) /\
  (map (fun l => (dir (tiffl l), image_w (tiffl l))) <$>
     levels (osr (huron_open (sample_host wider_untagged_slide) "slide.tif"
                             resolution_in_directory_0 initial_world).2))
    = Some [(0, 4000); (1, 1000)].
Proof. vm_compute. auto 10. Qed.

(** Two sorts that conform to the contract may leave two levels of equal
    width in either order. *)
Example huron_open_tie_order :
  directories_of
    (levels (osr (huron_open (sample_host tied_slide) "slide.tif"
                             resolution_in_directory_0 initial_world).2)) = Some [0; 1] /\
  directories_of
    (levels (osr (huron_open (reversing_host tied_slide) "slide.tif"
                             resolution_in_directory_0 initial_world).2)) = Some [1; 0].
Proof. vm_compute. auto. Qed.

(** ** The directory given to the property and hash extractor *)

(** C6: whenever [huron_open] calls the property and hash extractor, the
    directory it passes is that of the last level of the sorted array,
    which is the narrowest level collected; the property directory is 0. *)
Theorem huron_open_hash_directory h filename tl w d pd :
  sort_conforms (g_ptr_array_sort h) ->
  (forall file, tiffcache_open h filename = Ok file -> Z.of_nat (length file.2) < 2 ^ 32) ->
  Ev_init_properties_and_hash d pd ∈ log (huron_open h filename tl w).2 ->
  Ev_init_properties_and_hash d pd ∈ log w \/
  exists file w1 arr top,
    tiffcache_open h filename = Ok file /\
    scanned h file w = (Next tt, w1) /\
    level_array w1 = Some arr /\
    last (g_ptr_array_sort h width_compare arr) = Some top /\
    d = dir (tiffl top) /\ pd = 0 /\
    forall l, l ∈ arr -> image_w (tiffl top) <= image_w (tiffl l).
Proof.
  intros Hc Hsize. rewrite huron_open_eq.
  destruct (tiffcache_open h filename) as [file|e] eqn:Hf.
  - specialize (Hsize file eq_refl).
    destruct (scanned_scanning h file w) as (r & w1 & arr & E & Hs & Hr & Hlen).
    rewrite E. pose proof (scan_array _ _ _ Hs) as Ha.
    pose proof (scan_log _ _ _ Hs) as Hlog.
    destruct Hr as [->|[-> _]].
    + destruct (huron_open_finish_cases h tl w1 arr Ha) as (r & w2 & Efin & Hcase).
      rewrite Efin.
      destruct (sorted_by_width _ arr Hc) as [Hp Hsorted].
      assert (Hin2 : Ev_init_properties_and_hash d pd ∈ log w2 ->
                     Ev_init_properties_and_hash d pd ∈ log w \/
                     exists file' w1' arr' top,
                       Ok file = Ok file' /\
                       scanned h file' w = (Next tt, w1') /\
                       level_array w1' = Some arr' /\
                       last (g_ptr_array_sort h width_compare arr') = Some top /\
                       d = dir (tiffl top) /\ pd = 0 /\
                       forall l, l ∈ arr' -> image_w (tiffl top) <= image_w (tiffl l)).
      { destruct (top_of (g_ptr_array_sort h width_compare arr)) as [top|] eqn:Etop.
        - destruct Hcase as [(later & Hl & Hlater) _]. rewrite Hl.
          intros Hin. apply elem_of_app in Hin as [Hin|Hin]; [left; apply Hlog, Hin|].
          apply elem_of_cons in Hin as [Hin|Hin].
          + injection Hin as -> ->. right. exists file, w1, arr, top.
            rewrite top_of_last in Etop.
            * repeat (split; [assumption || reflexivity|]).
              intros l Hl'. apply (sorted_last_narrowest _ top Hsorted Etop).
              rewrite Hp. exact Hl'.
            * eapply top_of_Some, Etop.
            * rewrite Hp. lia.
          + rewrite Forall_forall in Hlater. destruct (Hlater _ Hin).
        - destruct Hcase as [_ Hl]. rewrite Hl. intros Hin. left. apply Hlog, Hin. }
      destruct r as [[]|[]]; try exact Hin2.
      lazy beta iota.
      destruct (huron_open_FAIL_returns w2) as (w3 & E3 & _ & _ & _ & _ & Hl3 & _).
      rewrite E3. intros Hin. apply Hin2, Hl3, Hin.
    + lazy beta iota.
      destruct (huron_open_FAIL_returns w1) as (w3 & E3 & _ & _ & _ & _ & Hl3 & _).
      rewrite E3. intros Hin. left. apply Hlog, Hl3, Hin.
  - match goal with
    | |- _ ∈ log (huron_open_FAIL ?x).2 -> _ =>
        destruct (huron_open_FAIL_returns x) as (w3 & E3 & _ & _ & _ & _ & Hl3 & _);
        rewrite E3; intros Hin; left; apply Hl3 in Hin; exact Hin
    end.
Qed.

Lemma huron_open_hash_directory_witness :
  Ev_init_properties_and_hash 2 0 ∈ log initial_world \/
  exists file w1 arr top,
    tiffcache_open (sample_host two_level_slide) "slide.tif" = Ok file /\
    scanned (sample_host two_level_slide) file initial_world = (Next tt, w1) /\
    level_array w1 = Some arr /\
    last (g_ptr_array_sort (sample_host two_level_slide) width_compare arr) = Some top /\
    2 = dir (tiffl top) /\ 0 = 0 /\
    forall l, l ∈ arr -> image_w (tiffl top) <= image_w (tiffl l).
Proof.
  apply (huron_open_hash_directory (sample_host two_level_slide) "slide.tif"
           resolution_in_directory_0 initial_world 2 0).
  - apply insertion_sort_conforms.
  - intros file H. injection H as <-. vm_compute. reflexivity.
  - vm_compute. repeat constructor.
Defined.

(** ** Directories that abort the open *)

(** A directory on which the body jumps to [FAIL] makes [huron_open]
    return [false] with the error set; the blocks and grids of the levels
    built so far are released, the tiffcache is destroyed, and the image
    object keeps the levels and data it had. *)
Lemma huron_open_aborts (P : directory -> Prop) h filename tl w file :
  (forall tiff d w, P tiff -> exists w', huron_open_directory h tiff d w = (Leave FAIL, w')) ->
  tiffcache_open h filename = Ok file ->
  Exists P (file.1 :: file.2) ->
  exists w',
    huron_open h filename tl w = (Leave (RETURN false), w') /\
    is_Some (err w') /\
    level_array w' = None /\ slices w' = slices w /\ grids w' = grids w /\
    tc w' = TC_destroyed /\
    levels (osr w') = levels (osr w) /\ data (osr w') = data (osr w).
Proof.
  intros HP Hf Hex. rewrite huron_open_eq, Hf.
  destruct (scanned_scanning h file w) as (r & w1 & arr & E & Hs & Hr & _).
  destruct (huron_open_loop_fails P h HP file.2 file.1 0 _ _ _ (scanning_start w) Hex)
    as [w1' E'].
  unfold scanned in E. rewrite E in E'. injection E' as -> <-.
  unfold scanned. rewrite E.
  destruct Hr as [Hr|[_ Herr]]; [discriminate Hr|].
  destruct Hs.
  destruct (huron_open_FAIL_releases w1 (slices (scan_start w)) (grids (scan_start w)) arr arr)
    as (w' & Efail & Ha & Hsl & Hg & Ht & He & Ho); auto.
  exists w'. split; [exact Efail|]. rewrite He, Ho.
  repeat (split; [assumption|]). assumption.
Qed.

(** C7 as the code has it: a tiled directory whose subfiletype tag is
    readable and whose compression tag is unreadable or names a codec the
    host lacks fails the whole open with an error; every level built so
    far is released with its grid, and the tiffcache is destroyed. *)
Theorem huron_open_undecodable h filename tl w file :
  tiffcache_open h filename = Ok file ->
  Exists (undecodable h) (file.1 :: file.2) ->
  exists w',
    huron_open h filename tl w = (Leave (RETURN false), w') /\
    is_Some (err w') /\
    level_array w' = None /\ slices w' = slices w /\ grids w' = grids w /\
    tc w' = TC_destroyed /\
    levels (osr w') = levels (osr w) /\ data (osr w') = data (osr w).
Proof.
  apply huron_open_aborts. intros tiff d w0 Hu.
  destruct (undecodable_fails h tiff d w0 Hu) as (w' & E & _). eauto.
Qed.

Lemma huron_open_undecodable_witness :
  exists w',
    huron_open (sample_host undecodable_slide) "slide.tif" resolution_in_directory_0
               initial_world = (Leave (RETURN false), w') /\
    is_Some (err w') /\
    level_array w' = None /\ slices w' = slices initial_world /\
    grids w' = grids initial_world /\
    tc w' = TC_destroyed /\
    levels (osr w') = levels (osr initial_world) /\ data (osr w') = data (osr initial_world).
Proof.
  apply (huron_open_undecodable (sample_host undecodable_slide) "slide.tif"
           resolution_in_directory_0 initial_world undecodable_slide).
  - reflexivity.
  - apply Exists_cons_tl, Exists_cons_hd.
    split; [eexists; vm_compute; reflexivity|]. split; vm_compute; reflexivity.
Defined.

(** The claim C7 as stated fails: the second directory is tiled and uses a
    compression the host cannot decode, yet the open succeeds with the
    first directory as its only level, because the second has no
    subfiletype tag and is skipped. *)
Lemma untagged_undecodable_directory_skipped :
  TIFFIsTiled (tiled_directory None 8000 99) = true /\
  TIFFGetField_uint16 (tiled_directory None 8000 99) TIFFTAG_COMPRESSION = Some 99 /\
  TIFFIsCODECConfigured (sample_host untagged_undecodable_slide) 99 = false /\
  (huron_open (sample_host untagged_undecodable_slide) "slide.tif"
              resolution_in_directory_0 initial_world).1 = Leave (RETURN true) /\
  directories_of
    (levels (osr (huron_open (sample_host untagged_undecodable_slide) "slide.tif"
                             resolution_in_directory_0 initial_world).2)) = Some [0].
Proof. vm_compute. auto 10. Qed.

(** C10 as the code has it: a directory that is not tiled, whose
    subfiletype tag is readable and which lacks the width, the length or
    the rows-per-strip tag fails the whole open with an error instead of
    being skipped. *)
Theorem huron_open_lacks_dimension h filename tl w file :
  tiffcache_open h filename = Ok file ->
  Exists lacks_dimension (file.1 :: file.2) ->
  exists w',
    huron_open h filename tl w = (Leave (RETURN false), w') /\
    is_Some (err w') /\
    level_array w' = None /\ slices w' = slices w /\ grids w' = grids w /\
    tc w' = TC_destroyed /\
    levels (osr w') = levels (osr w) /\ data (osr w') = data (osr w).
Proof.
  apply huron_open_aborts. intros tiff d w0 Hl.
  destruct (lacks_dimension_fails h tiff d w0 Hl) as (w' & E & _). eauto.
Qed.

Lemma huron_open_lacks_dimension_witness :
  exists w',
    huron_open (sample_host widthless_slide) "slide.tif" resolution_in_directory_0
               initial_world = (Leave (RETURN false), w') /\
    is_Some (err w') /\
    level_array w' = None /\ slices w' = slices initial_world /\
    grids w' = grids initial_world /\
    tc w' = TC_destroyed /\
    levels (osr w') = levels (osr initial_world) /\ data (osr w') = data (osr initial_world).
Proof.
  apply (huron_open_lacks_dimension (sample_host widthless_slide) "slide.tif"
           resolution_in_directory_0 initial_world widthless_slide).
  - reflexivity.
  - apply Exists_cons_tl, Exists_cons_hd.
    split; [eexists; vm_compute; reflexivity|].
    split; [reflexivity|]. left. vm_compute. reflexivity.
Defined.

(** The claim C10 as stated fails: the second directory is not tiled and
    has neither width, length nor rows-per-strip, yet the open succeeds,
    because that directory has no subfiletype tag either and is skipped. *)
Lemma untagged_bare_directory_skipped :
  TIFFIsTiled (mkDirectory false ∅ ∅) = false /\
  TIFFGetField_uint32 (mkDirectory false ∅ ∅) TIFFTAG_IMAGEWIDTH = None /\
  TIFFGetField_uint32 (mkDirectory false ∅ ∅) TIFFTAG_IMAGELENGTH = None /\
  TIFFGetField_uint32 (mkDirectory false ∅ ∅) TIFFTAG_ROWSPERSTRIP = None /\
  (huron_open (sample_host untagged_bare_slide) "slide.tif"
              resolution_in_directory_0 initial_world).1 = Leave (RETURN true).
Proof. vm_compute. auto 10. Qed.

(** ** The classification of one directory *)

(** C2 as the code has it: the subfiletype tag is read before the tiled
    flag is looked at.  A tiled directory without that tag is skipped with
    a message on stderr; one with it, whatever its value, is a level
    candidate: it is appended to the array when its compression is
    readable and decodable and the geometry helper succeeds, it fails the
    open otherwise, and it never registers an associated image. *)
Theorem huron_open_directory_tiled h tiff d w arr :
  level_array w = Some arr ->
  TIFFIsTiled tiff = true ->
  match TIFFGetField_uint32 tiff TIFFTAG_SUBFILETYPE with
  | None =>
      huron_open_directory h tiff d w =
        (Leave CONTINUE, add_log (Ev_stderr "failed to fetch subfiletype at dir %d\n" d) w)
  | Some subfiletype =>
      exists r w',
        huron_open_directory h tiff d w = (r, w') /\
        associated_images (osr w') = associated_images (osr w) /\
        match TIFFGetField_uint16 tiff TIFFTAG_COMPRESSION with
        | None =>
            r = Leave FAIL /\ level_array w' = Some arr /\
            err w' = Some (mkGError OPENSLIDE_ERROR_FAILED "Can't read compression scheme" [])
        | Some compression =>
            if TIFFIsCODECConfigured h compression then
              match _openslide_tiff_level_init h tiff d with
              | Ok t =>
                  r = Next tt /\
                  exists l, level_array w' = Some (arr ++ [l]) /\ tiffl l = t
              | Error e => r = Leave FAIL /\ level_array w' = Some arr /\ err w' = Some e
              end
            else
              r = Leave FAIL /\ level_array w' = Some arr /\
              err w' = Some (mkGError OPENSLIDE_ERROR_FAILED
                                      "Unsupported TIFF compression: %u" [compression])
        end
  end.
Proof.
  intros Ha Ht. exec_open. rewrite Ht.
  destruct (TIFFGetField_uint32 tiff TIFFTAG_SUBFILETYPE) as [s|]; exec; [|reflexivity].
  destruct (TIFFGetField_uint16 tiff TIFFTAG_COMPRESSION) as [c|]; exec;
    [|eexists _, _; split; [reflexivity|]; simpl; auto].
  destruct (TIFFIsCODECConfigured h c); exec;
    [|eexists _, _; split; [reflexivity|]; simpl; auto].
  destruct (_openslide_tiff_level_init h tiff d) as [t|e]; exec; rewrite ?Ha;
    (eexists _, _; split; [reflexivity|]; simpl; eauto 10).
Qed.

Lemma huron_open_directory_tiled_witness :
  exists r w',
    huron_open_directory (sample_host two_level_slide) (tiled_directory (Some 1) 1000 7) 2
                         (scan_start initial_world) = (r, w') /\
    associated_images (osr w') = associated_images (osr (scan_start initial_world)) /\
    r = Next tt /\
    exists l, level_array w' = Some ([] ++ [l]) /\
              tiffl l = mkTiffLevel 2 1000 1000 256 256 4 4.
Proof.
  exact (huron_open_directory_tiled (sample_host two_level_slide)
           (tiled_directory (Some 1) 1000 7) 2 (scan_start initial_world) []
           eq_refl eq_refl).
Defined.

(** The claim C2 as stated fails: a tiled directory whose codec is
    available is not made a level when it has no subfiletype tag; the
    widest directory of this slide is missing from the level list. *)
Lemma untagged_tiled_directory_skipped :
  TIFFIsTiled (tiled_directory None 8000 7) = true /\
  TIFFIsCODECConfigured (sample_host untagged_level_slide) 7 = true /\
  huron_open_directory (sample_host untagged_level_slide) (tiled_directory None 8000 7) 1
                       (scan_start initial_world)
    = (Leave CONTINUE,
       add_log (Ev_stderr "failed to fetch subfiletype at dir %d\n" 1)
               (scan_start initial_world)) /\
  (huron_open (sample_host untagged_level_slide) "slide.tif"
              resolution_in_directory_0 initial_world).1 = Leave (RETURN true) /\
  directories_of
    (levels (osr (huron_open (sample_host untagged_level_slide) "slide.tif"
                             resolution_in_directory_0 initial_world).2)) = Some [0].
Proof. vm_compute. auto 10. Qed.

(** C9 as the code has it: a directory that is not tiled, whose
    subfiletype tag is readable and which has one row per strip and a
    positive width and length, is treated as rules 3 and 4 of the
    specification say: without a description it is skipped with no error;
    the second directory of the file with subfiletype 0 is registered as
    "thumbnail"; otherwise a trimmed description starting with "label"
    registers "label", one starting with "macro" registers "macro", and
    anything else is skipped.  A registration the host refuses fails the
    open. *)
Theorem huron_open_directory_associated h tiff d w subfiletype iw ih :
  TIFFGetField_uint32 tiff TIFFTAG_SUBFILETYPE = Some subfiletype ->
  TIFFIsTiled tiff = false ->
  TIFFGetField_uint32 tiff TIFFTAG_IMAGEWIDTH = Some iw ->
  TIFFGetField_uint32 tiff TIFFTAG_IMAGELENGTH = Some ih ->
  TIFFGetField_uint32 tiff TIFFTAG_ROWSPERSTRIP = Some 1 ->
  0 < iw -> 0 < ih ->
  match spec_associated_image (d + 1) subfiletype
          (TIFFGetField_ascii tiff TIFFTAG_IMAGEDESCRIPTION) with
  | Skip => huron_open_directory h tiff d w = (Leave CONTINUE, w)
  | Associated name =>
      match add_associated_image_check h name d tiff with
      | Ok _ =>
          huron_open_directory h tiff d w =
            (Leave CONTINUE,
             set_osr (set_associated_images (<[name := d]> (associated_images (osr w)))
                                            (osr w)) w)
      | Error e => huron_open_directory h tiff d w = (Leave FAIL, set_err (Some e) w)
      end
  end.
Proof.
  intros Hs Ht Hw Hh Hr Hiw Hih.
  unfold spec_associated_image. exec_open. rewrite Hs, Ht, Hw, Hh, Hr. exec.
  replace (iw <=? 0) with false by (symmetry; apply Z.leb_gt; lia).
  replace (ih <=? 0) with false by (symmetry; apply Z.leb_gt; lia).
  replace (d + 1 =? 2) with (d =? 1)
    by (destruct (Z.eqb_spec d 1), (Z.eqb_spec (d + 1) 2); lia || reflexivity).
  exec.
  destruct (TIFFGetField_ascii tiff TIFFTAG_IMAGEDESCRIPTION) as [desc|]; exec;
    [|reflexivity].
  unfold g_str_has_prefix, LABEL_DESCRIPTION, MACRO_DESCRIPTION.
  destruct ((d =? 1) && (subfiletype =? 0)); exec.
  - destruct (add_associated_image_check h "thumbnail" d tiff); reflexivity.
  - destruct (String.prefix "label" (g_strstrip desc)); exec.
    + destruct (add_associated_image_check h "label" d tiff); reflexivity.
    + destruct (String.prefix "macro" (g_strstrip desc)); exec; [|reflexivity].
      destruct (add_associated_image_check h "macro" d tiff); reflexivity.
Qed.

Lemma huron_open_directory_associated_witness :
  huron_open_directory (sample_host two_level_slide)
                       (flat_directory (Some 1) 1 (Some " label - 42 ")) 3 initial_world =
    (Leave CONTINUE,
     set_osr (set_associated_images (<["label" := 3]> (associated_images (osr initial_world)))
                                    (osr initial_world)) initial_world).
Proof.
  exact (huron_open_directory_associated (sample_host two_level_slide)
           (flat_directory (Some 1) 1 (Some " label - 42 ")) 3 initial_world 1 640 480
           eq_refl eq_refl eq_refl eq_refl eq_refl eq_refl eq_refl).
Defined.

(** The claim C9 as stated fails: the second directory of this slide is
    not tiled, has one row per strip, a size and the description "label",
    and it is registered neither as "thumbnail" nor as "label", because it
    has no subfiletype tag and is skipped before it is classified. *)
Lemma untagged_label_directory_skipped :
  TIFFIsTiled (flat_directory None 1 (Some "label")) = false /\
  TIFFGetField_uint32 (flat_directory None 1 (Some "label")) TIFFTAG_SUBFILETYPE = None /\
  TIFFGetField_uint32 (flat_directory None 1 (Some "label")) TIFFTAG_ROWSPERSTRIP = Some 1 /\
  g_str_has_prefix (g_strstrip "label") LABEL_DESCRIPTION = true /\
  huron_open_directory (sample_host untagged_label_slide)
                       (flat_directory None 1 (Some "label")) 1 (scan_start initial_world)
    = (Leave CONTINUE,
       add_log (Ev_stderr "failed to fetch subfiletype at dir %d\n" 1)
               (scan_start initial_world)) /\
  (huron_open (sample_host untagged_label_slide) "slide.tif"
              resolution_in_directory_0 initial_world).1 = Leave (RETURN true) /\
  associated_images
    (osr (huron_open (sample_host untagged_label_slide) "slide.tif"
                     resolution_in_directory_0 initial_world).2) = ∅.
Proof. vm_compute. auto 10. Qed.

(** What [g_strstrip] takes off: tabs, newlines, form feeds, carriage
    returns and blanks at both ends, and nothing inside. *)
Example g_strstrip_blanks :
  g_strstrip (String (Ascii.ascii_of_N 9)
               (String (Ascii.ascii_of_N 10)
                 (String (Ascii.ascii_of_N 12)
                   (String (Ascii.ascii_of_N 13) "  label - 42  "))))
  = "label - 42".
Proof. reflexivity. Qed.

(** It leaves a vertical tab where it is, so a description that starts
    with one before "label" is not a label: the third directory of this
    slide is passed over without an error. *)
Example vertical_tab_not_trimmed :
  g_ascii_isspace (Ascii.ascii_of_N 11) = false /\
  g_strstrip vertical_tab_label = vertical_tab_label /\
  g_str_has_prefix (g_strstrip vertical_tab_label) LABEL_DESCRIPTION = false /\
  huron_open_directory (sample_host vertical_tab_slide)
                       (flat_directory (Some 1) 1 (Some vertical_tab_label)) 2
                       (scan_start initial_world)
    = (Leave CONTINUE, scan_start initial_world) /\
  (huron_open (sample_host vertical_tab_slide) "slide.tif"
              resolution_in_directory_0 initial_world).1 = Leave (RETURN true) /\
  associated_images
    (osr (huron_open (sample_host vertical_tab_slide) "slide.tif"
                     resolution_in_directory_0 initial_world).2) !! "label" = None.
Proof. vm_compute. auto 10. Qed.

(** The images of the sample slide: directory 1 is the thumbnail whatever
    its description, directory 3 the label, directory 4 the macro. *)
Example two_level_slide_associated_images :
  map_to_list
    (associated_images
       (osr (huron_open (sample_host two_level_slide) "slide.tif"
                        resolution_in_directory_0 initial_world).2))
  ≡ₚ [("thumbnail", 1); ("label", 3); ("macro", 4)].
Proof. vm_compute. apply Permutation_rev. Qed.

(** ** The microns-per-pixel property *)

Example mpp_of_500 : (10000 / 500)%float = 20%float.
Proof. reflexivity. Qed.

(** C3 as the code has it: the microns-per-pixel property comes from the
    tags of directory 0.  Starting from the properties the extractor
    returned, a successful open adds [openslide.mpp-x], formatted from
    10000 / resolution, when the unit of directory 0 is centimeters and
    its X resolution is readable; it adds nothing when the unit cannot be
    read (an absent unit counts as inches), when the unit is anything but
    centimeters, or when the X resolution cannot be read. *)
Theorem huron_open_mpp_from_directory_0 h filename tl w w' :
  huron_open h filename tl w = (Leave (RETURN true), w') ->
  exists lowest props,
    init_properties_and_hash h tl (properties (osr w)) lowest 0 = Ok props /\
    (forall res,
        _openslide_tifflike_get_uint tl 0 TIFFTAG_RESOLUTIONUNIT = Ok RESUNIT_CENTIMETER ->
        _openslide_tifflike_get_float tl 0 TIFFTAG_XRESOLUTION = Ok res ->
        properties (osr w') =
          <[OPENSLIDE_PROPERTY_NAME_MPP_X := _openslide_format_double h (10000 / res)%float]>
            props) /\
    (forall e,
        _openslide_tifflike_get_uint tl 0 TIFFTAG_RESOLUTIONUNIT = Error e ->
        properties (osr w') = props) /\
    (forall unit,
        _openslide_tifflike_get_uint tl 0 TIFFTAG_RESOLUTIONUNIT = Ok unit ->
        unit <> RESUNIT_CENTIMETER ->
        properties (osr w') = props) /\
    (forall e,
        _openslide_tifflike_get_float tl 0 TIFFTAG_XRESOLUTION = Error e ->
        properties (osr w') = props).
Proof.
  intros Hopen.
  destruct (huron_open_success _ _ _ _ _ Hopen) as (file & w1 & arr & Hf & Hscan & Hs & Hfin).
  pose proof (scan_array _ _ _ Hs) as Ha.
  pose proof (scan_properties _ _ _ Hs) as Hp. simpl in Hp.
  destruct (huron_open_finish_cases h tl w1 arr Ha) as (r & w2 & E & Hcase).
  rewrite Hfin in E. injection E as <- <-.
  destruct (top_of (g_ptr_array_sort h width_compare arr)) as [top|];
    [|destruct Hcase as [Hcase _]; discriminate Hcase].
  destruct Hcase as [_ Hcase]. rewrite Hp in Hcase.
  destruct (init_properties_and_hash h tl (properties (osr w)) (dir (tiffl top)) 0)
    as [props|e] eqn:Ehash; [|destruct Hcase as [Hcase _]; discriminate Hcase].
  destruct Hcase as (_ & _ & Hok). destruct (Hok eq_refl) as (_ & Hprops & _).
  exists (dir (tiffl top)), props. split; [exact Ehash|].
  rewrite Hprops. unfold resolution_prop.
  repeat split.
  - intros res -> ->. reflexivity.
  - intros e ->. reflexivity.
  - intros unit -> Hne.
    destruct (_openslide_tifflike_get_float tl 0 TIFFTAG_XRESOLUTION); [|reflexivity].
    destruct (Z.eqb_spec unit RESUNIT_CENTIMETER); [contradiction|reflexivity].
  - intros e ->.
    destruct (_openslide_tifflike_get_uint tl 0 TIFFTAG_RESOLUTIONUNIT); reflexivity.
Qed.

Lemma huron_open_mpp_from_directory_0_witness :
  exists lowest props,
    init_properties_and_hash (sample_host two_level_slide) resolution_in_directory_0
                             (properties (osr initial_world)) lowest 0 = Ok props /\
    (forall res,
        _openslide_tifflike_get_uint resolution_in_directory_0 0 TIFFTAG_RESOLUTIONUNIT
          = Ok RESUNIT_CENTIMETER ->
        _openslide_tifflike_get_float resolution_in_directory_0 0 TIFFTAG_XRESOLUTION
          = Ok res ->
        properties (osr (huron_open (sample_host two_level_slide) "slide.tif"
                                    resolution_in_directory_0 initial_world).2) =
          <[OPENSLIDE_PROPERTY_NAME_MPP_X :=
              _openslide_format_double (sample_host two_level_slide) (10000 / res)%float]>
            props) /\
    (forall e,
        _openslide_tifflike_get_uint resolution_in_directory_0 0 TIFFTAG_RESOLUTIONUNIT
          = Error e ->
        properties (osr (huron_open (sample_host two_level_slide) "slide.tif"
                                    resolution_in_directory_0 initial_world).2) = props) /\
    (forall unit,
        _openslide_tifflike_get_uint resolution_in_directory_0 0 TIFFTAG_RESOLUTIONUNIT
          = Ok unit ->
        unit <> RESUNIT_CENTIMETER ->
        properties (osr (huron_open (sample_host two_level_slide) "slide.tif"
                                    resolution_in_directory_0 initial_world).2) = props) /\
    (forall e,
        _openslide_tifflike_get_float resolution_in_directory_0 0 TIFFTAG_XRESOLUTION
          = Error e ->
        properties (osr (huron_open (sample_host two_level_slide) "slide.tif"
                                    resolution_in_directory_0 initial_world).2) = props).
Proof.
  apply (huron_open_mpp_from_directory_0 (sample_host two_level_slide) "slide.tif"
           resolution_in_directory_0 initial_world).
  vm_compute. reflexivity.
Defined.

(** The claim C3 as stated fails.  The representative directory of the
    sample slide, the one given to the extractor, is directory 2.  With a
    resolution in centimeters in directory 0 only, the representative
    directory has no unit and the property is published all the same; with
    the resolution in directory 2 only, the representative directory has
    unit centimeters and resolution 500 and nothing is published. *)
Lemma mpp_not_from_representative_directory :
  Ev_init_properties_and_hash 2 0 ∈
    log (huron_open (sample_host two_level_slide) "slide.tif"
                    resolution_in_directory_0 initial_world).2 /\
  _openslide_tifflike_get_uint resolution_in_directory_0 2 TIFFTAG_RESOLUTIONUNIT
    = Error no_value /\
  properties (osr (huron_open (sample_host two_level_slide) "slide.tif"
                              resolution_in_directory_0 initial_world).2)
    !! OPENSLIDE_PROPERTY_NAME_MPP_X = Some "20" /\
  (huron_open (sample_host two_level_slide) "slide.tif"
              resolution_in_directory_2 initial_world).1 = Leave (RETURN true) /\
  _openslide_tifflike_get_uint resolution_in_directory_2 2 TIFFTAG_RESOLUTIONUNIT
    = Ok RESUNIT_CENTIMETER /\
  _openslide_tifflike_get_float resolution_in_directory_2 2 TIFFTAG_XRESOLUTION
    = Ok 500%float /\
  properties (osr (huron_open (sample_host two_level_slide) "slide.tif"
                              resolution_in_directory_2 initial_world).2)
    !! OPENSLIDE_PROPERTY_NAME_MPP_X = None.
Proof.
  split; [vm_compute; repeat constructor|].
  vm_compute. auto 10.
Qed.

(** ** Every failed open *)

(** X3: whenever [huron_open] returns [false], on whichever path, the
    error is set, every level built by the scan has been released with
    its grid, the array is gone, the tiffcache is destroyed, and the image
    object has the levels and data it had. *)
Theorem huron_open_failure_releases h filename tl w w' :
  sort_conforms (g_ptr_array_sort h) ->
  huron_open h filename tl w = (Leave (RETURN false), w') ->
  is_Some (err w') /\
  level_array w' = None /\ slices w' = slices w /\ grids w' = grids w /\
  tc w' = TC_destroyed /\
  levels (osr w') = levels (osr w) /\ data (osr w') = data (osr w).
Proof.
  intros Hc. rewrite huron_open_eq.
  destruct (tiffcache_open h filename) as [file|e].
  - destruct (scanned_scanning h file w) as (r & w1 & arr & E & Hs & Hr & _).
    rewrite E. destruct Hs.
    destruct Hr as [->|[-> Herr]].
    + destruct (huron_open_finish_cases h tl w1 arr scan_array0) as (r & w2 & Efin & Hcase).
      rewrite Efin.
      destruct (top_of (g_ptr_array_sort h width_compare arr)) as [top|];
        [|destruct Hcase as [-> _]; discriminate].
      destruct Hcase as [_ Hcase].
      destruct (init_properties_and_hash h tl (properties (osr w1)) (dir (tiffl top)) 0)
        as [props|e].
      * destruct Hcase as ([-> | ->] & _); discriminate.
      * destruct Hcase as (-> & He & Ha & Hsl & Hg & Ht & Ho).
        destruct (sorted_by_width _ arr Hc) as [Hp _].
        destruct (huron_open_FAIL_releases w2 (slices (scan_start w)) (grids (scan_start w))
                    arr (g_ptr_array_sort h width_compare arr))
          as (w3 & Efail & Ha3 & Hs3 & Hg3 & Ht3 & He3 & Ho3); auto; try congruence.
        rewrite Efail. intros H. injection H as <-.
        rewrite He3, He, Ho3, Ho. auto 10.
    + destruct (huron_open_FAIL_releases w1 (slices (scan_start w)) (grids (scan_start w))
                  arr arr)
        as (w3 & Efail & Ha3 & Hs3 & Hg3 & Ht3 & He3 & Ho3); auto.
      rewrite Efail. intros H. injection H as <-.
      rewrite He3, Ho3. auto 10.
  - match goal with
    | |- huron_open_FAIL ?x = _ -> _ =>
        destruct (huron_open_FAIL_releases x (slices w) (grids w) [] [])
          as (w3 & Efail & Ha3 & Hs3 & Hg3 & Ht3 & He3 & Ho3);
          [reflexivity | reflexivity | symmetry; apply app_nil_r | symmetry; apply app_nil_r
          | constructor | constructor |]
    end.
    rewrite Efail. intros H. injection H as <-.
    rewrite He3, Ho3. simpl. eauto 10.
Qed.

Lemma huron_open_failure_releases_witness :
  is_Some (err (huron_open (sample_host undecodable_slide) "slide.tif"
                           resolution_in_directory_0 initial_world).2) /\
  level_array (huron_open (sample_host undecodable_slide) "slide.tif"
                          resolution_in_directory_0 initial_world).2 = None /\
  slices (huron_open (sample_host undecodable_slide) "slide.tif"
                     resolution_in_directory_0 initial_world).2 = slices initial_world /\
  grids (huron_open (sample_host undecodable_slide) "slide.tif"
                    resolution_in_directory_0 initial_world).2 = grids initial_world /\
  tc (huron_open (sample_host undecodable_slide) "slide.tif"
                 resolution_in_directory_0 initial_world).2 = TC_destroyed /\
  levels (osr (huron_open (sample_host undecodable_slide) "slide.tif"
                          resolution_in_directory_0 initial_world).2)
    = levels (osr initial_world) /\
  data (osr (huron_open (sample_host undecodable_slide) "slide.tif"
                        resolution_in_directory_0 initial_world).2)
    = data (osr initial_world).
Proof.
  apply (huron_open_failure_releases (sample_host undecodable_slide) "slide.tif"
           resolution_in_directory_0 initial_world).
  - apply insertion_sort_conforms.
  - vm_compute. reflexivity.
Defined.

(** ** The state a successful open leaves *)

Lemma top_of_None (arr : list level) : top_of arr = None -> arr = [].
Proof.
  destruct arr as [|x arr]; [reflexivity|]. intros H. exfalso.
  unfold top_of in H.
  set (n := Z.of_nat (length (x :: arr))) in *.
  assert (Hn : 0 < n) by (subst n; simpl; lia).
  assert (Hi : 0 <= (n mod 2 ^ 32 - 1) mod 2 ^ 32 < n).
  { pose proof (Z.mod_pos_bound n (2 ^ 32) ltac:(lia)) as Hm.
    destruct (Z.eq_dec (n mod 2 ^ 32) 0) as [E|E].
    - rewrite E. change ((0 - 1) mod 2 ^ 32) with (2 ^ 32 - 1).
      apply Z.mod_divide in E; [|lia]. destruct E as [k Hk]. nia.
    - rewrite (Z.mod_small (n mod 2 ^ 32 - 1)) by lia.
      pose proof (Z.mod_le n (2 ^ 32) ltac:(lia) ltac:(lia)). lia. }
  replace ((0 <=? (n mod 2 ^ 32 - 1) mod 2 ^ 32) && ((n mod 2 ^ 32 - 1) mod 2 ^ 32 <? n))
    with true in H
    by (symmetry; apply andb_true_iff; split; [apply Z.leb_le|apply Z.ltb_lt]; lia).
  apply lookup_ge_None in H. subst n. lia.
Qed.

(** The statements after the loop, when they reach [return true]. *)
Lemma huron_open_finish_true h tl w1 w' :
  huron_open_finish h tl w1 = (Leave (RETURN true), w') ->
  exists arr top props,
    level_array w1 = Some arr /\
    top_of (g_ptr_array_sort h width_compare arr) = Some top /\
    init_properties_and_hash h tl (properties (osr w1)) (dir (tiffl top)) 0 = Ok props /\
    data (osr w1) = None /\ levels (osr w1) = None /\
    err w' = err w1 /\
    osr w' =
      mkOsr true (Some (g_ptr_array_sort h width_compare arr))
            (int32 (Z.of_nat (length (g_ptr_array_sort h width_compare arr)) mod 2 ^ 32))
            (Some (mkData (fresh (slices w1).*1) true))
            (resolution_prop h tl 0 TIFFTAG_XRESOLUTION OPENSLIDE_PROPERTY_NAME_MPP_X props)
            (associated_images (osr w1)) (cache (osr w1)) /\
    level_array w' = None /\
    slices w' = slices w1 ++ [(fresh (slices w1).*1, Block_huron_ops_data)] /\
    grids w' = grids w1 /\
    tc w' = match tc w1 with TC_live _ => TC_live false | t => t end /\
    log w' = log w1 ++ [Ev_init_properties_and_hash (dir (tiffl top)) 0;
                        Ev_slice_alloc (fresh (slices w1).*1) Block_huron_ops_data].
Proof.
  unfold huron_open_finish, _openslide_tifflike_init_properties_and_hash, pdata, top_of,
    g_assert, g_slice_alloc, _openslide_tiffcache_put, int32.
  exec. destruct (level_array w1) as [arr|] eqn:Ha; exec; [|discriminate].
  repeat (case_step; exec); intros H; try discriminate H.
  all: injection H as <-; rewrite ?huron_set_resolution_prop_eq; simpl.
  all: eexists _, _, _; split; [reflexivity|].
  all: split;
    [match goal with H : (_ && _) = true |- _ => rewrite H end; eassumption|].
  all: split; [eassumption|].
  all: destruct (data (osr w1)); try discriminate; destruct (levels (osr w1)); try discriminate.
  all: rewrite <- ?app_assoc; repeat split; assumption.
Qed.

Lemma int32_small (n : Z) : 0 <= n < 2 ^ 31 -> int32 (n mod 2 ^ 32) = n.
Proof.
  intros H. unfold int32.
  rewrite (Z.mod_small n) by lia.
  rewrite Z.mod_small by lia. lia.
Qed.

(** X4: a successful open leaves one live block and one live grid, with
    the level's tile geometry, for each level it collected, and one block
    for the private data, which stores the tiffcache; the TIFF handle has
    been put back, the array is handed over to [osr->levels], and
    [level_count] is the number of levels. *)
Theorem huron_open_success_state h filename tl w w' :
  sort_conforms (g_ptr_array_sort h) ->
  (forall file, tiffcache_open h filename = Ok file ->
                Z.of_nat (length file.2) < 2 ^ 31 - 1) ->
  huron_open h filename tl w = (Leave (RETURN true), w') ->
  exists arr ls a,
    levels (osr w') = Some ls /\ ls ≡ₚ arr /\
    level_count (osr w') = Z.of_nat (length ls) /\
    slices w' = slices w ++ (level_block <$> arr) ++ [(a, Block_huron_ops_data)] /\
    grids w' = grids w ++ (level_grid <$> arr) /\
    data (osr w') = Some (mkData a true) /\ ops (osr w') = true /\
    tc w' = TC_live false /\ level_array w' = None.
Proof.
  intros Hc Hsize Hopen.
  destruct (huron_open_success _ _ _ _ _ Hopen) as (file & w1 & arr & Hf & Hscan & Hs & Hfin).
  destruct (scanned_scanning h file w) as (r0 & w0 & arr0 & E0 & Hs0 & _ & Hlen).
  rewrite Hscan in E0. injection E0 as <- <-.
  pose proof (scan_array _ _ _ Hs) as Ha. rewrite (scan_array _ _ _ Hs0) in Ha.
  injection Ha as ->.
  destruct (huron_open_finish_true _ _ _ _ Hfin)
    as (arr' & top & props & Ha' & _ & _ & _ & _ & _ & Hosr & Hla & Hsl & Hg & Htc & _).
  rewrite (scan_array _ _ _ Hs) in Ha'. injection Ha' as <-.
  destruct (sorted_by_width _ arr Hc) as [Hp _].
  specialize (Hsize file Hf).
  exists arr, (g_ptr_array_sort h width_compare arr), (fresh (slices w1).*1).
  rewrite Hosr, Hsl, Hg, Htc, (scan_slices _ _ _ Hs), (scan_grids _ _ _ Hs),
    (scan_tc _ _ _ Hs). simpl.
  repeat split; try assumption.
  - apply int32_small. rewrite Hp. lia.
  - rewrite <- app_assoc. reflexivity.
Qed.

Lemma huron_open_success_state_witness :
  exists arr ls a,
    levels (osr (huron_open (sample_host two_level_slide) "slide.tif"
                            resolution_in_directory_0 initial_world).2) = Some ls /\
    ls ≡ₚ arr /\
    level_count (osr (huron_open (sample_host two_level_slide) "slide.tif"
                                 resolution_in_directory_0 initial_world).2)
      = Z.of_nat (length ls) /\
    slices (huron_open (sample_host two_level_slide) "slide.tif"
                       resolution_in_directory_0 initial_world).2
      = slices initial_world ++ (level_block <$> arr) ++ [(a, Block_huron_ops_data)] /\
    grids (huron_open (sample_host two_level_slide) "slide.tif"
                      resolution_in_directory_0 initial_world).2
      = grids initial_world ++ (level_grid <$> arr) /\
    data (osr (huron_open (sample_host two_level_slide) "slide.tif"
                          resolution_in_directory_0 initial_world).2)
      = Some (mkData a true) /\
    ops (osr (huron_open (sample_host two_level_slide) "slide.tif"
                         resolution_in_directory_0 initial_world).2) = true /\
    tc (huron_open (sample_host two_level_slide) "slide.tif"
                   resolution_in_directory_0 initial_world).2 = TC_live false /\
    level_array (huron_open (sample_host two_level_slide) "slide.tif"
                            resolution_in_directory_0 initial_world).2 = None.
Proof.
  apply (huron_open_success_state (sample_host two_level_slide) "slide.tif"
           resolution_in_directory_0 initial_world).
  - apply insertion_sort_conforms.
  - intros file H. injection H as <-. vm_compute. reflexivity.
  - vm_compute. reflexivity.
Defined.

(** ** destroy *)

Lemma bind_next {R A B} (m : stmt R A) (k : A -> stmt R B) w a w' :
  m w = (Next a, w') -> (m ≫= k) w = k a w'.
Proof. intros H. unfold mbind, stmt_bind. rewrite H. reflexivity. Qed.

Lemma destroy_level_eq (ls : list level) (i : nat) (l : level) w :
  levels (osr w) = Some ls ->
  ls !! i = Some l ->
  destroy_level (Z.of_nat i) w =
    (Next tt,
     add_log (Ev_slice_free (level_addr l) Block_level)
       (set_slices (filter (fun p => p.1 <> level_addr l) (slices w))
          (set_grids (filter (fun x => grid_addr x <> grid l) (grids w)) w))).
Proof.
  intros Hls Hl.
  unfold destroy_level, pdata, _openslide_grid_destroy, g_slice_free. exec.
  rewrite Hls. exec. rewrite Nat2Z.id, Hl.
  pose proof (lookup_lt_Some _ _ _ Hl) as Hlt.
  replace ((0 <=? Z.of_nat i) && (Z.of_nat i <? Z.of_nat (length ls))) with true
    by (symmetry; apply andb_true_iff; split; [apply Z.leb_le|apply Z.ltb_lt]; lia).
  reflexivity.
Qed.

(** The loop of [destroy] over a whole level list frees the block and the
    grid of each of its levels and nothing else. *)
Lemma destroy_levels_spec (suffix : list level) :
  forall prefix w,
    levels (osr w) = Some (prefix ++ suffix) ->
    exists w',
      foldr (fun i (k : stmt jump unit) => destroy_level i;; k) (mret tt)
            (Z.of_nat <$> seq (length prefix) (length suffix)) w = (Next tt, w') /\
      slices w' = filter (fun p => p.1 ∉ level_addr <$> suffix) (slices w) /\
      grids w' = filter (fun g => grid_addr g ∉ grid <$> suffix) (grids w) /\
      err w' = err w /\ osr w' = osr w /\ tc w' = tc w /\ level_array w' = level_array w /\
      log w' = log w ++ ((fun l => Ev_slice_free (level_addr l) Block_level) <$> suffix).
Proof.
  induction suffix as [|l suffix IH]; intros prefix w Hls.
  - eexists. split; [reflexivity|]. simpl.
    repeat split; try (symmetry; apply app_nil_r);
      symmetry; apply filter_all; intros x _ Hin; inversion Hin.
  - cbn [length seq fmap list_fmap foldr].
    erewrite bind_next;
      [|apply (destroy_level_eq (prefix ++ l :: suffix) (length prefix) l w Hls),
         list_lookup_middle; reflexivity].
    match goal with
    | |- context [foldr _ _ _ ?w2] =>
        destruct (IH (prefix ++ [l]) w2) as (w' & E & Hs & Hg & He & Ho & Ht & Ha & Hl)
    end.
    { simpl. rewrite <- app_assoc. exact Hls. }
    rewrite length_app in E. simpl in E.
    replace (length prefix + 1)%nat with (S (length prefix)) in E by lia.
    exists w'. split; [exact E|].
    rewrite Hs, Hg, He, Ho, Ht, Ha, Hl. simpl.
    repeat split.
    + rewrite list_filter_filter. apply list_filter_iff. intros p.
      rewrite not_elem_of_cons. tauto.
    + rewrite list_filter_filter. apply list_filter_iff. intros g.
      rewrite not_elem_of_cons. tauto.
    + rewrite <- app_assoc. reflexivity.
Qed.

Lemma release_slices (s0 : list (Z * block)) (arr arr' : list level) :
  arr' ≡ₚ arr ->
  Forall (fun l => level_addr l ∉ s0.*1) arr ->
  filter (fun p => p.1 ∉ level_addr <$> arr') (s0 ++ (level_block <$> arr)) = s0.
Proof.
  intros Hperm Hfresh.
  rewrite filter_app, filter_all, filter_none; [apply app_nil_r| |].
  - intros p Hp Hnot. apply Hnot.
    apply list_elem_of_fmap in Hp as (l & -> & Hl). simpl.
    apply list_elem_of_fmap_2. rewrite Hperm. exact Hl.
  - intros p Hp Hin. apply list_elem_of_fmap in Hin as (l & Hpl & Hl).
    rewrite Hperm in Hl. rewrite Forall_forall in Hfresh.
    apply (Hfresh l Hl). rewrite <- Hpl. apply list_elem_of_fmap_2. exact Hp.
Qed.

Lemma release_grids (g0 : list simple_grid) (arr arr' : list level) :
  arr' ≡ₚ arr ->
  Forall (fun l => grid l ∉ grid_addr <$> g0) arr ->
  filter (fun g => grid_addr g ∉ grid <$> arr') (g0 ++ (level_grid <$> arr)) = g0.
Proof.
  intros Hperm Hfresh.
  rewrite filter_app, filter_all, filter_none; [apply app_nil_r| |].
  - intros g Hin Hnot. apply Hnot.
    apply list_elem_of_fmap in Hin as (l & -> & Hl). simpl.
    apply list_elem_of_fmap_2. rewrite Hperm. exact Hl.
  - intros g Hin' Hin. apply list_elem_of_fmap in Hin as (l & Hpl & Hl).
    rewrite Hperm in Hl. rewrite Forall_forall in Hfresh.
    apply (Hfresh l Hl). rewrite <- Hpl. apply list_elem_of_fmap_2. exact Hin'.
Qed.

(** A level the body of the loop appends has a block and a grid that
    were not live before. *)
Lemma huron_open_directory_fresh h tiff d w arr :
  level_array w = Some arr ->
  exists r w',
    huron_open_directory h tiff d w = (r, w') /\
    (r = Leave FAIL \/ level_array w' = Some arr \/
     exists l, level_array w' = Some (arr ++ [l]) /\
               level_addr l = fresh (slices w).*1 /\
               grid l = fresh (grid_addr <$> grids w)).
Proof.
  intros Ha. exec_open. rewrite ?Ha.
  repeat (case_step; exec; rewrite ?Ha);
    eexists _, _; (split; [reflexivity|]);
    first [ left; reflexivity
          | right; left; simpl; exact Ha
          | right; right; eexists; split; [reflexivity|split; reflexivity] ].
Qed.

(** So the levels a scan collects have pairwise distinct blocks and
    pairwise distinct grids. *)
Lemma huron_open_loop_distinct h rest :
  forall tiff d w0 w arr,
    scanning w0 w arr ->
    NoDup (level_addr <$> arr) -> NoDup (grid <$> arr) ->
    exists r w',
      huron_open_loop h tiff d rest w = (r, w') /\
      (r = Next tt ->
       exists arr', level_array w' = Some arr' /\
                    NoDup (level_addr <$> arr') /\ NoDup (grid <$> arr')).
Proof.
  assert (Hstep : forall tiff d w0 w arr,
             scanning w0 w arr ->
             NoDup (level_addr <$> arr) -> NoDup (grid <$> arr) ->
             exists r w' arr',
               huron_open_directory h tiff d w = (r, w') /\
               scanning w0 w' arr' /\
               (r = Next tt \/ r = Leave CONTINUE \/ r = Leave FAIL) /\
               (r <> Leave FAIL ->
                NoDup (level_addr <$> arr') /\ NoDup (grid <$> arr'))).
  { intros tiff d w0 w arr Hs Hb Hg.
    destruct (huron_open_directory_scanning h tiff d w0 w arr Hs)
      as (r & w' & arr' & E & Hs' & Hr & _).
    destruct (huron_open_directory_fresh h tiff d w arr (scan_array _ _ _ Hs))
      as (r2 & w2 & E2 & Hfresh).
    rewrite E in E2. injection E2 as <- <-.
    exists r, w', arr'. split; [exact E|]. split; [exact Hs'|].
    split; [destruct Hr as [?|[?|[? _]]]; auto|].
    intros Hnot. destruct Hfresh as [?|[Ha'|(l & Ha' & Hl & Hgl)]]; [contradiction| |];
      rewrite (scan_array _ _ _ Hs') in Ha'; injection Ha' as ->; [auto|].
    rewrite !fmap_app. simpl. split.
    - apply NoDup_app. split; [exact Hb|]. split; [|apply NoDup_singleton].
      intros x Hx Hx'. apply list_elem_of_singleton in Hx'. subst x.
      apply (fresh_not_elem (slices w).*1). rewrite <- Hl.
      rewrite (scan_slices _ _ _ Hs), fmap_app. apply elem_of_app. right.
      apply list_elem_of_fmap in Hx as (l' & -> & Hl').
      apply list_elem_of_fmap. exists (level_block l').
      split; [reflexivity|]. apply list_elem_of_fmap_2. exact Hl'.
    - apply NoDup_app. split; [exact Hg|]. split; [|apply NoDup_singleton].
      intros x Hx Hx'. apply list_elem_of_singleton in Hx'. subst x.
      apply (fresh_not_elem (grid_addr <$> grids w)). rewrite <- Hgl.
      rewrite (scan_grids _ _ _ Hs), fmap_app. apply elem_of_app. right.
      apply list_elem_of_fmap in Hx as (l' & -> & Hl').
      apply list_elem_of_fmap. exists (level_grid l').
      split; [reflexivity|]. apply list_elem_of_fmap_2. exact Hl'. }
  induction rest as [|tiff' rest IH]; intros tiff d w0 w arr Hs Hb Hg;
    rewrite huron_open_loop_eq;
    destruct (Hstep tiff d w0 w arr Hs Hb Hg) as (r & w' & arr' & -> & Hs' & Hr & Hd).
  - destruct Hr as [-> | [-> | ->]]; eexists _, _; (split; [reflexivity|]);
      try discriminate; intros _; exists arr';
      (split; [exact (scan_array _ _ _ Hs')|]); apply Hd; discriminate.
  - destruct Hr as [-> | [-> | ->]].
    + destruct Hd as [Hb' Hg']; [discriminate|].
      destruct (IH tiff' (d + 1) w0 w' arr' Hs' Hb' Hg') as (r & w'' & E & H).
      eexists _, _. split; [exact E|]. exact H.
    + destruct Hd as [Hb' Hg']; [discriminate|].
      destruct (IH tiff' (d + 1) w0 w' arr' Hs' Hb' Hg') as (r & w'' & E & H).
      eexists _, _. split; [exact E|]. exact H.
    + eexists _, _. split; [reflexivity|]. discriminate.
Qed.

(** X5: [destroy] after a successful [huron_open] ends normally and
    releases what the open allocated, each block once: the frees it logs
    are one of the block of the private data and then one of the block of
    each level in the order of the level list, the addresses freed are
    pairwise distinct, and each of these blocks was live, under its kind,
    when [destroy] was called; the grids of the levels are pairwise
    distinct and were live.  Afterwards the live blocks and grids are
    those from before the open and the tiffcache, live until then, is
    destroyed.  [destroy] resets no field of the image object and leaves
    the error alone. *)
Theorem huron_open_then_destroy h filename tl w w' :
  sort_conforms (g_ptr_array_sort h) ->
  (forall file, tiffcache_open h filename = Ok file ->
                Z.of_nat (length file.2) < 2 ^ 31 - 1) ->
  huron_open h filename tl w = (Leave (RETURN true), w') ->
  exists w'' a ls,
    data (osr w') = Some (mkData a true) /\ levels (osr w') = Some ls /\
    tc w' = TC_live false /\
    destroy w' = (Next tt, w'') /\
    log w'' = log w' ++ Ev_slice_free a Block_huron_ops_data ::
                        ((fun l => Ev_slice_free (level_addr l) Block_level) <$> ls) /\
    NoDup (a :: (level_addr <$> ls)) /\
    (a, Block_huron_ops_data) ∈ slices w' /\
    Forall (fun l => level_block l ∈ slices w' /\ level_grid l ∈ grids w') ls /\
    NoDup (grid <$> ls) /\
    slices w'' = slices w /\ grids w'' = grids w /\ tc w'' = TC_destroyed /\
    osr w'' = osr w' /\ err w'' = err w'.
Proof.
  intros Hc Hsize Hopen.
  destruct (huron_open_success _ _ _ _ _ Hopen) as (file & w1 & arr & Hf & Hscan & Hs & Hfin).
  destruct (scanned_scanning h file w) as (r0 & w0 & arr0 & E0 & Hs0 & _ & Hlen).
  rewrite Hscan in E0. injection E0 as <- <-.
  pose proof (scan_array _ _ _ Hs) as Ha. rewrite (scan_array _ _ _ Hs0) in Ha.
  injection Ha as ->.
  destruct (huron_open_loop_distinct h file.2 file.1 0 _ _ _ (scanning_start w)
              NoDup_nil_2 NoDup_nil_2) as (r1 & w1' & E1 & Hdistinct).
  pose proof Hscan as Hscan'. unfold scanned in Hscan'.
  rewrite Hscan' in E1. injection E1 as <- <-.
  destruct (Hdistinct eq_refl) as (arr1 & Ha1 & Hblocks & Hgrids).
  rewrite (scan_array _ _ _ Hs) in Ha1. injection Ha1 as <-.
  destruct (huron_open_finish_true _ _ _ _ Hfin)
    as (arr' & top & props & Ha' & _ & _ & _ & _ & _ & Hosr & Hla & Hsl & Hg & Htc & _).
  rewrite (scan_array _ _ _ Hs) in Ha'. injection Ha' as <-.
  destruct (sorted_by_width _ arr Hc) as [Hp _].
  specialize (Hsize file Hf).
  set (sorted := g_ptr_array_sort h width_compare arr) in *.
  assert (Hcount : level_count (osr w') = Z.of_nat (length sorted)).
  { rewrite Hosr. simpl. apply int32_small. rewrite Hp. lia. }
  assert (Hdata : data (osr w') = Some (mkData (fresh (slices w1).*1) true))
    by (rewrite Hosr; reflexivity).
  assert (Hlevels : levels (osr w') = Some ([] ++ sorted)) by (rewrite Hosr; reflexivity).
  assert (Hrun : exists w'',
             destroy w' = (Next tt, w'') /\
             log w'' = log w' ++ Ev_slice_free (fresh (slices w1).*1) Block_huron_ops_data ::
                         ((fun l => Ev_slice_free (level_addr l) Block_level) <$> sorted) /\
             slices w'' = slices w /\ grids w'' = grids w /\ tc w'' = TC_destroyed /\
             osr w'' = osr w' /\ err w'' = err w').
  { unfold destroy.
    erewrite bind_next by reflexivity. rewrite Hdata, Hcount, Nat2Z.id.
    erewrite bind_next by reflexivity. cbn [data_tc data_addr].
    erewrite bind_next by reflexivity.
    erewrite bind_next by reflexivity.
    match goal with
    | |- context [foldr _ _ _ ?w2] =>
        destruct (destroy_levels_spec sorted [] w2 Hlevels)
          as (w'' & E & Hs2 & Hg2 & He2 & Ho2 & Ht2 & _ & Hl2)
    end.
    exists w''. split; [exact E|].
    rewrite Hs2, Hg2, He2, Ho2, Ht2, Hl2. simpl.
    rewrite Hsl, alloc_then_free, Hg, (scan_slices _ _ _ Hs), (scan_grids _ _ _ Hs).
    split; [rewrite <- app_assoc; reflexivity|].
    repeat split.
    - apply release_slices; [exact Hp | exact (scan_fresh_slices _ _ _ Hs)].
    - apply release_grids; [exact Hp | exact (scan_fresh_grids _ _ _ Hs)]. }
  destruct Hrun as (w'' & Hrun & Hlog & Hrest).
  exists w'', (fresh (slices w1).*1), sorted.
  split; [exact Hdata|]. split; [exact Hlevels|].
  split; [rewrite Htc, (scan_tc _ _ _ Hs); reflexivity|].
  split; [exact Hrun|]. split; [exact Hlog|].
  split.
  { apply NoDup_cons. split; [|rewrite Hp; exact Hblocks].
    intros Hin. apply list_elem_of_fmap in Hin as (l & Hl & Hin).
    apply (fresh_not_elem (slices w1).*1). rewrite Hl.
    rewrite (scan_slices _ _ _ Hs), fmap_app. apply elem_of_app. right.
    apply list_elem_of_fmap. exists (level_block l).
    split; [reflexivity|]. apply list_elem_of_fmap_2. rewrite <- Hp. exact Hin. }
  split.
  { rewrite Hsl. apply elem_of_app. right. apply list_elem_of_here. }
  split.
  { apply Forall_forall. intros l Hl. rewrite Hp in Hl. split.
    - rewrite Hsl, (scan_slices _ _ _ Hs). apply elem_of_app. left.
      apply elem_of_app. right. apply list_elem_of_fmap_2. exact Hl.
    - rewrite Hg, (scan_grids _ _ _ Hs). apply elem_of_app. right.
      apply list_elem_of_fmap_2. exact Hl. }
  split; [rewrite Hp; exact Hgrids|].
  exact Hrest.
Qed.

Lemma huron_open_then_destroy_witness :
  exists w'' a ls,
    data (osr (huron_open (sample_host two_level_slide) "slide.tif"
                          resolution_in_directory_0 initial_world).2) = Some (mkData a true) /\
    levels (osr (huron_open (sample_host two_level_slide) "slide.tif"
                            resolution_in_directory_0 initial_world).2) = Some ls /\
    tc (huron_open (sample_host two_level_slide) "slide.tif"
                   resolution_in_directory_0 initial_world).2 = TC_live false /\
    destroy (huron_open (sample_host two_level_slide) "slide.tif"
                        resolution_in_directory_0 initial_world).2 = (Next tt, w'') /\
    log w'' = log (huron_open (sample_host two_level_slide) "slide.tif"
                              resolution_in_directory_0 initial_world).2 ++
              Ev_slice_free a Block_huron_ops_data ::
                ((fun l => Ev_slice_free (level_addr l) Block_level) <$> ls) /\
    NoDup (a :: (level_addr <$> ls)) /\
    (a, Block_huron_ops_data) ∈
      slices (huron_open (sample_host two_level_slide) "slide.tif"
                         resolution_in_directory_0 initial_world).2 /\
    Forall (fun l =>
              level_block l ∈ slices (huron_open (sample_host two_level_slide) "slide.tif"
                                                 resolution_in_directory_0 initial_world).2 /\
              level_grid l ∈ grids (huron_open (sample_host two_level_slide) "slide.tif"
                                               resolution_in_directory_0 initial_world).2) ls /\
    NoDup (grid <$> ls) /\
    slices w'' = slices initial_world /\ grids w'' = grids initial_world /\
    tc w'' = TC_destroyed /\
    osr w'' = osr (huron_open (sample_host two_level_slide) "slide.tif"
                              resolution_in_directory_0 initial_world).2 /\
    err w'' = err (huron_open (sample_host two_level_slide) "slide.tif"
                              resolution_in_directory_0 initial_world).2.
Proof.
  apply (huron_open_then_destroy (sample_host two_level_slide) "slide.tif"
           resolution_in_directory_0 initial_world).
  - apply insertion_sort_conforms.
  - intros file H. injection H as <-. vm_compute. reflexivity.
  - vm_compute. reflexivity.
Defined.

(** ** Completeness of the level list *)

(** X6: the levels of a successful open are, up to the order the sort
    gives them, exactly the directories of the file that are tiled and
    have a readable subfiletype tag, one level for each in file order,
    each with the geometry the helper computed for that directory under
    its number. *)
Theorem huron_open_levels_complete h filename tl w w' :
  sort_conforms (g_ptr_array_sort h) ->
  huron_open h filename tl w = (Leave (RETURN true), w') ->
  exists file arr ls,
    tiffcache_open h filename = Ok file /\
    levels (osr w') = Some ls /\ ls ≡ₚ arr /\
    Forall2 (fun l p => _openslide_tiff_level_init h p.2 p.1 = Ok (tiffl l)) arr
            (filter (fun p => level_candidate p.2 = true) (numbered 0 (file.1 :: file.2))).
Proof.
  intros Hc Hopen.
  destruct (huron_open_success _ _ _ _ _ Hopen) as (file & w1 & arr & Hf & Hscan & Hs & Hfin).
  destruct (huron_open_loop_levels h file.2 file.1 0 (scan_start w) [] eq_refl)
    as (r & w2 & E & Hnext).
  unfold scanned in Hscan. rewrite Hscan in E. injection E as <- <-.
  destruct (Hnext eq_refl) as (added & Ha & Hall). simpl in Ha.
  rewrite (scan_array _ _ _ Hs) in Ha. injection Ha as <-.
  destruct (huron_open_finish_true _ _ _ _ Hfin)
    as (arr' & top & props & Ha' & _ & _ & _ & _ & _ & Hosr & _).
  rewrite (scan_array _ _ _ Hs) in Ha'. injection Ha' as <-.
  destruct (sorted_by_width _ arr Hc) as [Hp _].
  exists file, arr, (g_ptr_array_sort h width_compare arr).
  rewrite Hosr. auto.
Qed.

Lemma huron_open_levels_complete_witness :
  exists file arr ls,
    tiffcache_open (sample_host two_level_slide) "slide.tif" = Ok file /\
    levels (osr (huron_open (sample_host two_level_slide) "slide.tif"
                            resolution_in_directory_0 initial_world).2) = Some ls /\
    ls ≡ₚ arr /\
    Forall2 (fun l p => _openslide_tiff_level_init (sample_host two_level_slide) p.2 p.1
                        = Ok (tiffl l)) arr
            (filter (fun p => level_candidate p.2 = true) (numbered 0 (file.1 :: file.2))).
Proof.
  apply (huron_open_levels_complete (sample_host two_level_slide) "slide.tif"
           resolution_in_directory_0 initial_world).
  - apply insertion_sort_conforms.
  - vm_compute. reflexivity.
Defined.

(** ** The associated images an open registers *)

Lemma position_two (d : Z) : (d + 1 =? 2) = (d =? 1).
Proof. destruct (Z.eqb_spec d 1), (Z.eqb_spec (d + 1) 2); lia || reflexivity. Qed.

Lemma registrable_intro d tiff name s iw ih ir desc :
  TIFFIsTiled tiff = false ->
  TIFFGetField_uint32 tiff TIFFTAG_SUBFILETYPE = Some s ->
  TIFFGetField_uint32 tiff TIFFTAG_IMAGEWIDTH = Some iw ->
  TIFFGetField_uint32 tiff TIFFTAG_IMAGELENGTH = Some ih ->
  TIFFGetField_uint32 tiff TIFFTAG_ROWSPERSTRIP = Some ir ->
  negb (ir =? 1) || (iw <=? 0) || (ih <=? 0) = false ->
  TIFFGetField_ascii tiff TIFFTAG_IMAGEDESCRIPTION = Some desc ->
  spec_associated_image (d + 1) s (Some desc) = Associated name ->
  registrable d tiff name.
Proof.
  intros Ht Hs Hw Hh Hr Hcond Hd Hspec.
  apply orb_false_elim in Hcond as [Hcond Hih].
  apply orb_false_elim in Hcond as [Hir Hiw].
  apply negb_false_iff, Z.eqb_eq in Hir. subst ir.
  apply Z.leb_gt in Hiw, Hih.
  split; [exact Ht|]. split; [exact Hr|].
  exists s, iw, ih. rewrite Hd. auto 10.
Qed.

(** The body of the loop registers at most one image, under the number of
    the directory, and only for a directory that can be registered under
    that name. *)
Lemma huron_open_directory_images h tiff d w :
  exists r w',
    huron_open_directory h tiff d w = (r, w') /\
    (associated_images (osr w') = associated_images (osr w) \/
     exists name,
       associated_images (osr w') = <[name := d]> (associated_images (osr w)) /\
       registrable d tiff name).
Proof.
  exec_open.
  destruct (TIFFGetField_uint32 tiff TIFFTAG_SUBFILETYPE) as [s|] eqn:Es; exec;
    [|eexists _, _; split; [reflexivity|]; left; reflexivity].
  destruct (TIFFIsTiled tiff) eqn:Et; exec.
  - repeat (case_step; exec); eexists _, _; (split; [reflexivity|]); left; reflexivity.
  - destruct (TIFFGetField_uint32 tiff TIFFTAG_IMAGEWIDTH) as [iw|] eqn:Ew; exec;
      [|eexists _, _; split; [reflexivity|]; left; reflexivity].
    destruct (TIFFGetField_uint32 tiff TIFFTAG_IMAGELENGTH) as [ih|] eqn:Eh; exec;
      [|eexists _, _; split; [reflexivity|]; left; reflexivity].
    destruct (TIFFGetField_uint32 tiff TIFFTAG_ROWSPERSTRIP) as [ir|] eqn:Er; exec;
      [|eexists _, _; split; [reflexivity|]; left; reflexivity].
    destruct (negb (ir =? 1) || (iw <=? 0) || (ih <=? 0)) eqn:Econd; exec;
      [eexists _, _; split; [reflexivity|]; left; reflexivity|].
    destruct (TIFFGetField_ascii tiff TIFFTAG_IMAGEDESCRIPTION) as [desc|] eqn:Ed; exec;
      [|eexists _, _; split; [reflexivity|]; left; reflexivity].
    assert (Hreg : forall name,
               spec_associated_image (d + 1) s (Some desc) = Associated name ->
               registrable d tiff name)
      by (intros name; eapply registrable_intro; eassumption).
    unfold spec_associated_image in Hreg. rewrite position_two in Hreg.
    unfold g_str_has_prefix, LABEL_DESCRIPTION, MACRO_DESCRIPTION.
    destruct ((d =? 1) && (s =? 0)); exec.
    + destruct (add_associated_image_check h "thumbnail" d tiff); exec;
        eexists _, _; (split; [reflexivity|]); simpl; eauto.
    + destruct (String.prefix "label" (g_strstrip desc)); exec.
      * destruct (add_associated_image_check h "label" d tiff); exec;
          eexists _, _; (split; [reflexivity|]); simpl; eauto.
      * destruct (String.prefix "macro" (g_strstrip desc)); exec.
        -- destruct (add_associated_image_check h "macro" d tiff); exec;
             eexists _, _; (split; [reflexivity|]); simpl; eauto.
        -- eexists _, _; split; [reflexivity|]; left; reflexivity.
Qed.

Lemma huron_open_loop_images h rest :
  forall tiff d w,
    exists r w',
      huron_open_loop h tiff d rest w = (r, w') /\
      forall name i,
        associated_images (osr w') !! name = Some i ->
        associated_images (osr w) !! name = Some i \/
        exists t, (i, t) ∈ numbered d (tiff :: rest) /\ registrable i t name.
Proof.
  induction rest as [|tiff' rest IH]; intros tiff d w;
    rewrite huron_open_loop_eq;
    destruct (huron_open_directory_images h tiff d w) as (r & w1 & -> & Hbody);
    assert (Hone : forall name i,
               associated_images (osr w1) !! name = Some i ->
               associated_images (osr w) !! name = Some i \/ (i = d /\ registrable d tiff name)).
  1, 3: (intros name i; destruct Hbody as [-> | (n & -> & Hreg)]; [auto|];
         rewrite lookup_insert_Some; intros [[<- <-] | [_ H]]; auto).
  - destruct r as [[]|[]]; eexists _, _; (split; [reflexivity|]);
      intros name i Hi; (destruct (Hone name i Hi) as [H | [-> H]]; [auto|]);
      right; exists tiff; (split; [left|exact H]).
  - assert (Hboth : forall w2,
               (forall name i,
                   associated_images (osr w2) !! name = Some i ->
                   associated_images (osr w1) !! name = Some i \/
                   exists t, (i, t) ∈ numbered (d + 1) (tiff' :: rest) /\ registrable i t name) ->
               forall name i,
                 associated_images (osr w2) !! name = Some i ->
                 associated_images (osr w) !! name = Some i \/
                 exists t, (i, t) ∈ numbered d (tiff :: tiff' :: rest) /\ registrable i t name).
    { intros w2 H2 name i Hi.
      destruct (H2 name i Hi) as [H | (t & Hin & Hreg)].
      - destruct (Hone name i H) as [H' | [-> H']]; [auto|].
        right. exists tiff. split; [left|exact H'].
      - right. exists t. split; [right; exact Hin|exact Hreg]. }
    destruct (IH tiff' (d + 1) w1) as (r2 & w2 & E2 & H2).
    destruct r as [[]|[]]; try rewrite E2; eexists _, _; (split; [reflexivity|]);
      first [ exact (Hboth w2 H2)
            | intros name i Hi; (destruct (Hone name i Hi) as [H | [-> H]]; [auto|]);
              right; exists tiff; (split; [left|exact H]) ].
Qed.

(** The image object a returning open leaves is the one the scan left,
    but for the fields the statements after the loop set on success. *)
Lemma huron_open_returned_osr h filename tl w b w' :
  huron_open h filename tl w = (Leave (RETURN b), w') ->
  associated_images (osr w') =
    associated_images
      match tiffcache_open h filename with
      | Ok file => osr (scanned h file w).2
      | Error _ => osr w
      end /\
  (b = false ->
   osr w' = match tiffcache_open h filename with
            | Ok file => osr (scanned h file w).2
            | Error _ => osr w
            end).
Proof.
  rewrite huron_open_eq.
  destruct (tiffcache_open h filename) as [file|e].
  - destruct (scanned_scanning h file w) as (r & w1 & arr & E & Hs & Hr & _).
    rewrite E. simpl. destruct Hr as [->|[-> _]].
    + destruct (huron_open_finish_cases h tl w1 arr (scan_array _ _ _ Hs))
        as (r & w2 & Efin & Hcase).
      destruct (top_of (g_ptr_array_sort h width_compare arr)) as [top|];
        [|destruct Hcase as [-> _]; rewrite Efin; discriminate].
      destruct Hcase as [_ Hcase].
      destruct (init_properties_and_hash h tl (properties (osr w1)) (dir (tiffl top)) 0)
        as [props|e].
      * destruct Hcase as ([-> | ->] & _ & Hok); rewrite Efin; [|discriminate].
        intros H. injection H as <- <-. destruct (Hok eq_refl) as (_ & _ & Hi & _).
        split; [exact Hi|discriminate].
      * destruct Hcase as (-> & _ & _ & _ & _ & _ & Ho). rewrite Efin.
        destruct (huron_open_FAIL_returns w2) as (w3 & E3 & _ & _ & _ & Ho3 & _).
        rewrite E3. intros H. injection H as <- <-. rewrite Ho3, Ho. auto.
    + destruct (huron_open_FAIL_returns w1) as (w3 & E3 & _ & _ & _ & Ho3 & _).
      rewrite E3. intros H. injection H as <- <-. rewrite Ho3. auto.
  - match goal with
    | |- huron_open_FAIL ?x = _ -> _ =>
        destruct (huron_open_FAIL_returns x) as (w3 & E3 & _ & _ & _ & Ho3 & _)
    end.
    rewrite E3. intros H. injection H as <- <-. rewrite Ho3. auto.
Qed.

(** X7: whatever [huron_open] returns, an associated image found in the
    image object afterwards was there before or was registered by the
    scan: its name is "thumbnail", "label" or "macro" as the classification
    gives it, the description being trimmed as [g_strstrip] trims it, and
    its number is that of a directory of the file that is not tiled, has a
    readable subfiletype, one row per strip, a positive size and a
    description.  In particular "thumbnail" is directory 1. *)
Theorem huron_open_images_sound h filename tl w b w' name i :
  huron_open h filename tl w = (Leave (RETURN b), w') ->
  associated_images (osr w') !! name = Some i ->
  associated_images (osr w) !! name = Some i \/
  exists file t,
    tiffcache_open h filename = Ok file /\
    (i, t) ∈ numbered 0 (file.1 :: file.2) /\
    registrable i t name /\
    (name = "thumbnail" /\ i = 1 \/ name = "label" \/ name = "macro").
Proof.
  intros Hopen. destruct (huron_open_returned_osr _ _ _ _ _ _ Hopen) as [-> _].
  destruct (tiffcache_open h filename) as [file|e]; [|auto].
  destruct (huron_open_loop_images h file.2 file.1 0 (scan_start w)) as (r & w1 & E & Himg).
  unfold scanned. rewrite E. simpl. intros Hi.
  destruct (Himg name i Hi) as [H | (t & Hin & Hreg)]; [left; exact H|].
  right. exists file, t. repeat (split; [assumption || reflexivity|]).
  destruct Hreg as (_ & _ & s & iw & ih & _ & _ & _ & _ & _ & Hspec).
  unfold spec_associated_image in Hspec. rewrite position_two in Hspec.
  destruct (TIFFGetField_ascii t TIFFTAG_IMAGEDESCRIPTION) as [desc|]; [|discriminate].
  destruct ((i =? 1) && (s =? 0)) eqn:E1.
  - injection Hspec as <-. apply andb_true_iff in E1 as [E1 _].
    apply Z.eqb_eq in E1. auto.
  - destruct (String.prefix "label" (g_strstrip desc)); [injection Hspec as <-; auto|].
    destruct (String.prefix "macro" (g_strstrip desc)); [injection Hspec as <-; auto|].
    discriminate.
Qed.

Lemma huron_open_images_sound_witness :
  associated_images (osr initial_world) !! "label" = Some 3 \/
  exists file t,
    tiffcache_open (sample_host two_level_slide) "slide.tif" = Ok file /\
    (3, t) ∈ numbered 0 (file.1 :: file.2) /\
    registrable 3 t "label" /\
    ("label" = "thumbnail" /\ 3 = 1 \/ "label" = "label" \/ "label" = "macro").
Proof.
  apply (huron_open_images_sound (sample_host two_level_slide) "slide.tif"
           resolution_in_directory_0 initial_world true
           (huron_open (sample_host two_level_slide) "slide.tif"
                       resolution_in_directory_0 initial_world).2 "label" 3).
  - vm_compute. reflexivity.
  - vm_compute. reflexivity.
Defined.

(** X8: a failed open does not take back what the scan registered: the
    associated images of the image object are those the scan left (those
    it had when the TIFF could not be opened), while its levels and data
    are not set. *)
Theorem huron_open_failure_keeps_images h filename tl w w' :
  huron_open h filename tl w = (Leave (RETURN false), w') ->
  associated_images (osr w') =
    match tiffcache_open h filename with
    | Ok file => associated_images (osr (scanned h file w).2)
    | Error _ => associated_images (osr w)
    end /\
  levels (osr w') = levels (osr w) /\ data (osr w') = data (osr w).
Proof.
  intros Hopen. destruct (huron_open_returned_osr _ _ _ _ _ _ Hopen) as [_ Ho].
  rewrite (Ho eq_refl).
  destruct (tiffcache_open h filename) as [file|e]; [|auto].
  destruct (scanned_scanning h file w) as (r & w1 & arr & E & Hs & _).
  rewrite E. simpl. destruct Hs. auto.
Qed.

Lemma huron_open_failure_keeps_images_witness :
  associated_images
    (osr (huron_open (sample_host thumbnail_then_undecodable_slide) "slide.tif"
                     resolution_in_directory_0 initial_world).2) =
    match tiffcache_open (sample_host thumbnail_then_undecodable_slide) "slide.tif" with
    | Ok file =>
        associated_images
          (osr (scanned (sample_host thumbnail_then_undecodable_slide) file
                        initial_world).2)
    | Error _ => associated_images (osr initial_world)
    end /\
  levels (osr (huron_open (sample_host thumbnail_then_undecodable_slide) "slide.tif"
                          resolution_in_directory_0 initial_world).2)
    = levels (osr initial_world) /\
  data (osr (huron_open (sample_host thumbnail_then_undecodable_slide) "slide.tif"
                        resolution_in_directory_0 initial_world).2)
    = data (osr initial_world).
Proof.
  apply (huron_open_failure_keeps_images (sample_host thumbnail_then_undecodable_slide)
           "slide.tif" resolution_in_directory_0 initial_world).
  vm_compute. reflexivity.
Defined.

(** The thumbnail registered before the failure is still there. *)
Example failed_open_keeps_thumbnail :
  (huron_open (sample_host thumbnail_then_undecodable_slide) "slide.tif"
              resolution_in_directory_0 initial_world).1 = Leave (RETURN false) /\
  associated_images
    (osr (huron_open (sample_host thumbnail_then_undecodable_slide) "slide.tif"
                     resolution_in_directory_0 initial_world).2) !! "thumbnail" = Some 1.
Proof. vm_compute. auto. Qed.

(** ** The ways huron_open ends *)

Lemma huron_open_finish_outcomes h tl w1 arr :
  level_array w1 = Some arr ->
  exists r w',
    huron_open_finish h tl w1 = (Leave r, w') /\
    match r with
    | RETURN true => data (osr w1) = None /\ levels (osr w1) = None
    | FAIL => is_Some (err w')
    | CRASH Out_of_bounds_read => top_of (g_ptr_array_sort h width_compare arr) = None
    | CRASH Assertion_failed => data (osr w1) <> None \/ levels (osr w1) <> None
    | _ => False
    end.
Proof.
  intros Ha.
  unfold huron_open_finish, _openslide_tifflike_init_properties_and_hash, pdata, top_of,
    g_assert, g_slice_alloc, _openslide_tiffcache_put.
  exec. rewrite Ha. exec.
  destruct (data (osr w1)) eqn:Ed; destruct (levels (osr w1)) eqn:El; exec.
  all: repeat (case_step; exec); eexists _, _; (split; [reflexivity|]); simpl.
  all: rewrite ?Ed, ?El; simpl; try (split; reflexivity); try reflexivity; eauto.
  all: try first [left; discriminate | right; discriminate].
  all: repeat match goal with
       | H : negb (bool_of_option _) = _ |- _ => rewrite ?Ed, ?El in H; simpl in H
       end; discriminate.
Qed.

(** X9: [huron_open] ends in one of four ways: it returns [true], and then
    the image object had neither data nor levels before; it returns
    [false] with the error set; it reads outside the empty array, exactly
    when the scan ended with no level; or it fails an assertion, which it
    does only when the object already had data or levels. *)
Theorem huron_open_outcomes h filename tl w :
  sort_conforms (g_ptr_array_sort h) ->
  exists r w',
    huron_open h filename tl w = (Leave r, w') /\
    match r with
    | RETURN true => data (osr w) = None /\ levels (osr w) = None
    | RETURN false => is_Some (err w')
    | CRASH Out_of_bounds_read =>
        exists file w1,
          tiffcache_open h filename = Ok file /\
          scanned h file w = (Next tt, w1) /\ level_array w1 = Some []
    | CRASH Assertion_failed => data (osr w) <> None \/ levels (osr w) <> None
    | _ => False
    end.
Proof.
  intros Hc. rewrite huron_open_eq.
  destruct (tiffcache_open h filename) as [file|e].
  - destruct (scanned_scanning h file w) as (r & w1 & arr & E & Hs & Hr & _).
    rewrite E. destruct Hr as [->|[-> Herr]].
    + destruct (huron_open_finish_outcomes h tl w1 arr (scan_array _ _ _ Hs))
        as (r & w2 & Efin & Hcase).
      rewrite Efin, (scan_data _ _ _ Hs), (scan_levels _ _ _ Hs) in *. simpl in Hcase.
      destruct r as [| |[]|[]]; try contradiction.
      * destruct (huron_open_FAIL_returns w2) as (w3 & E3 & _ & _ & He3 & _).
        rewrite E3. eexists _, _. split; [reflexivity|]. simpl. rewrite He3. exact Hcase.
      * eexists _, _. split; [reflexivity|]. exact Hcase.
      * eexists _, _. split; [reflexivity|].
        apply top_of_None in Hcase.
        destruct (sorted_by_width _ arr Hc) as [Hp _]. rewrite Hcase in Hp.
        apply Permutation_nil in Hp. subst arr.
        exists file, w1. split; [reflexivity|]. split; [exact E|].
        exact (scan_array _ _ _ Hs).
      * eexists _, _. split; [reflexivity|]. exact Hcase.
    + destruct (huron_open_FAIL_returns w1) as (w3 & E3 & _ & _ & He3 & _).
      rewrite E3. eexists _, _. split; [reflexivity|]. simpl. rewrite He3. exact Herr.
  - match goal with
    | |- context [huron_open_FAIL ?x] =>
        destruct (huron_open_FAIL_returns x) as (w3 & E3 & _ & _ & He3 & _)
    end.
    rewrite E3. eexists _, _. split; [reflexivity|]. simpl. rewrite He3. simpl. eauto.
Qed.

Lemma huron_open_outcomes_witness :
  exists r w',
    huron_open (sample_host two_level_slide) "slide.tif" resolution_in_directory_0
               initial_world = (Leave r, w') /\
    match r with
    | RETURN true => data (osr initial_world) = None /\ levels (osr initial_world) = None
    | RETURN false => is_Some (err w')
    | CRASH Out_of_bounds_read =>
        exists file w1,
          tiffcache_open (sample_host two_level_slide) "slide.tif" = Ok file /\
          scanned (sample_host two_level_slide) file initial_world = (Next tt, w1) /\
          level_array w1 = Some []
    | CRASH Assertion_failed =>
        data (osr initial_world) <> None \/ levels (osr initial_world) <> None
    | _ => False
    end.
Proof.
  apply (huron_open_outcomes (sample_host two_level_slide) "slide.tif"
           resolution_in_directory_0 initial_world).
  apply insertion_sort_conforms.
Defined.

(** On a directory without a subfiletype tag the body of the loop writes
    its message and continues. *)
Lemma huron_open_directory_untagged h tiff d w :
  TIFFGetField_uint32 tiff TIFFTAG_SUBFILETYPE = None ->
  huron_open_directory h tiff d w =
    (Leave CONTINUE, add_log (Ev_stderr "failed to fetch subfiletype at dir %d\n" d) w).
Proof. intros H. exec_open. rewrite H. reflexivity. Qed.

Lemma huron_open_loop_untagged h rest :
  forall tiff d w,
    Forall (fun t => TIFFGetField_uint32 t TIFFTAG_SUBFILETYPE = None) (tiff :: rest) ->
    exists w',
      huron_open_loop h tiff d rest w = (Next tt, w') /\
      level_array w' = level_array w /\ osr w' = osr w.
Proof.
  induction rest as [|tiff' rest IH]; intros tiff d w Hall;
    rewrite huron_open_loop_eq;
    apply Forall_cons in Hall as [Hnone Hall];
    rewrite (huron_open_directory_untagged h tiff d w Hnone).
  - eexists. split; [reflexivity|]. auto.
  - destruct (IH tiff' (d + 1)
                  (add_log (Ev_stderr "failed to fetch subfiletype at dir %d\n" d) w) Hall)
      as (w' & E & Ha & Ho).
    rewrite E. eexists. split; [reflexivity|]. rewrite Ha, Ho. auto.
Qed.

(** X10: a file none of whose directories has a subfiletype tag cannot be
    opened: every directory is skipped, no level is collected and
    [huron_open] reads outside the empty array, whatever the directories
    hold otherwise. *)
Theorem huron_open_untagged_file h filename tl w file :
  sort_conforms (g_ptr_array_sort h) ->
  tiffcache_open h filename = Ok file ->
  Forall (fun t => TIFFGetField_uint32 t TIFFTAG_SUBFILETYPE = None) (file.1 :: file.2) ->
  (huron_open h filename tl w).1 = Leave (CRASH Out_of_bounds_read) /\
  osr (huron_open h filename tl w).2 = osr w.
Proof.
  intros Hc Hf Hall. rewrite huron_open_eq, Hf.
  destruct (huron_open_loop_untagged h file.2 file.1 0 (scan_start w) Hall)
    as (w1 & E & Ha & Ho).
  unfold scanned. rewrite E.
  destruct (huron_open_finish_cases h tl w1 [] Ha) as (r & w' & Efin & Hcase).
  destruct (sorted_by_width _ [] Hc) as [Hp _].
  apply Permutation_nil_r in Hp. rewrite Hp, top_of_nil in Hcase.
  destruct Hcase as [-> _]. rewrite Efin. simpl. split; [reflexivity|].
  revert Efin. unfold huron_open_finish, pdata. exec. rewrite Ha. exec. rewrite Hp.
  exec. intros H. injection H as <-. simpl. exact Ho.
Qed.

Lemma huron_open_untagged_file_witness :
  (huron_open (sample_host wholly_untagged_slide) "slide.tif" resolution_in_directory_0
              initial_world).1 = Leave (CRASH Out_of_bounds_read) /\
  osr (huron_open (sample_host wholly_untagged_slide) "slide.tif" resolution_in_directory_0
                  initial_world).2 = osr initial_world.
Proof.
  apply (huron_open_untagged_file (sample_host wholly_untagged_slide) "slide.tif"
           resolution_in_directory_0 initial_world wholly_untagged_slide).
  - apply insertion_sort_conforms.
  - reflexivity.
  - repeat constructor.
Defined.

(** ** Reading a tile twice *)

(** X11: when [read_tile] misses and the tile decodes and clips, reading
    the same tile again hits: the second call paints the very buffer the
    first one cached, allocates nothing, and leaves the cache and the live
    blocks as the first call left them. *)
Theorem read_tile_miss_then_hit h l col row w decoded clipped :
  cache (osr w) !! (level_addr l, col, row) = None ->
  _openslide_tiff_read_tile h (tiffl l) col row = Ok decoded ->
  _openslide_tiff_clip_tile h (tiffl l) decoded col row = Ok clipped ->
  exists w1 w2,
    read_tile h l col row w = (Some true, w1) /\
    read_tile h l col row w1 = (Some true, w2) /\
    (entry_pixels <$> cache (osr w1) !! (level_addr l, col, row)) = Some clipped /\
    cache (osr w2) = cache (osr w1) /\ slices w2 = slices w1 /\
    log w2 = log w1 ++
      [Ev_paint clipped (int32 (tile_w (tiffl l))) (int32 (tile_h (tiffl l)))
                (int32 (int64 (tile_w (tiffl l) * 4)))].
Proof.
  intros Hmiss Hread Hclip.
  assert (E1 : exists w1,
             read_tile h l col row w = (Some true, w1) /\
             cache (osr w1) =
               <[(level_addr l, col, row) :=
                   mkEntry (fresh (slices w).*1) clipped
                           (tile_bytes (tile_w (tiffl l)) (tile_h (tiffl l))) 0]>
                 (cache (osr w))).
  { unfold read_tile, read_tile_body, _openslide_cache_get, g_slice_alloc,
      _openslide_cache_put, _openslide_cache_entry_unref.
    exec. rewrite Hmiss. exec. rewrite Hread. exec. rewrite Hclip. exec.
    eexists. split; [reflexivity|]. simpl. rewrite alter_insert_eq. reflexivity. }
  destruct E1 as (w1 & E1 & Hcache).
  assert (Hhit : cache (osr w1) !! (level_addr l, col, row) =
                 Some (mkEntry (fresh (slices w).*1) clipped
                               (tile_bytes (tile_w (tiffl l)) (tile_h (tiffl l))) 0))
    by (rewrite Hcache; apply lookup_insert_eq).
  exists w1. rewrite E1, Hhit.
  unfold read_tile, read_tile_body, _openslide_cache_get, _openslide_cache_entry_unref.
  exec. rewrite Hhit. exec.
  eexists. split; [reflexivity|]. split; [reflexivity|]. simpl.
  repeat split.
  rewrite alter_insert_eq. simpl.
  replace (0 + 1 - 1) with 0 by lia. apply insert_id. exact Hhit.
Qed.

Lemma read_tile_miss_then_hit_witness :
  exists w1 w2,
    read_tile (sample_host two_level_slide) sample_level 0 0 initial_world = (Some true, w1) /\
    read_tile (sample_host two_level_slide) sample_level 0 0 w1 = (Some true, w2) /\
    (entry_pixels <$> cache (osr w1) !! (level_addr sample_level, 0, 0)) = Some [1; 2; 3; 4] /\
    cache (osr w2) = cache (osr w1) /\ slices w2 = slices w1 /\
    log w2 = log w1 ++
      [Ev_paint [1; 2; 3; 4] (int32 (tile_w (tiffl sample_level)))
                (int32 (tile_h (tiffl sample_level)))
                (int32 (int64 (tile_w (tiffl sample_level) * 4)))].
Proof.
  exact (read_tile_miss_then_hit (sample_host two_level_slide) sample_level 0 0
           initial_world [1; 2; 3; 4] [1; 2; 3; 4] eq_refl eq_refl eq_refl).
Defined.

(** ** The comparison of widths *)

(** X12: [width_compare] is a consistent comparison that orders levels by
    decreasing width: swapping its arguments negates it, it is 0 exactly
    on equal widths and negative exactly when the first level is wider,
    and it is transitive. *)
Theorem width_compare_consistent (la lb lc : level) :
  width_compare lb la = - width_compare la lb /\
  (width_compare la lb = 0 <-> image_w (tiffl la) = image_w (tiffl lb)) /\
  (width_compare la lb < 0 <-> image_w (tiffl lb) < image_w (tiffl la)) /\
  (width_compare la lb <= 0 -> width_compare lb lc <= 0 -> width_compare la lc <= 0).
Proof.
  unfold width_compare.
  destruct (Z.gtb_spec (image_w (tiffl la)) (image_w (tiffl lb)));
    destruct (Z.gtb_spec (image_w (tiffl lb)) (image_w (tiffl la)));
    destruct (Z.gtb_spec (image_w (tiffl lb)) (image_w (tiffl lc)));
    destruct (Z.gtb_spec (image_w (tiffl la)) (image_w (tiffl lc)));
    destruct (Z.eqb_spec (image_w (tiffl la)) (image_w (tiffl lb)));
    destruct (Z.eqb_spec (image_w (tiffl lb)) (image_w (tiffl la)));
    destruct (Z.eqb_spec (image_w (tiffl lb)) (image_w (tiffl lc)));
    destruct (Z.eqb_spec (image_w (tiffl la)) (image_w (tiffl lc)));
    lia.
Qed.
